(** * Entrofy: greedy panel selection (notebooks/Diversity optimizer.ipynb)

  A shallow embedding of the three functions of the notebook's core cell,
  [obj], [_entrofy] and [entrofy], and the properties of their results.

  The notebook computes with NumPy float64 arrays.  The embedding keeps
  the control flow, the array shapes and the exceptions, and takes the
  float64 numbers as a type [T] with the operations the code applies to
  them ([Arith]): a value of [T] is any float64, [nan] and the infinities
  included, and an operation may round, overflow or return [nan].  Where a
  proof needs them, the comparisons obey the laws IEEE 754 gives them
  ([ArithLaws]) and an operation on a [nan] returns a [nan] ([NanLaws]).
  The sample runs use the binary64 numbers of the kernel ([F64]). *)

From Stdlib Require Import List Arith Bool Lia ZArith Sorted.
From Stdlib Require Import Floats Uint63.
Import ListNotations.

Open Scope nat_scope.
Set Implicit Arguments.

(** ** Numbers *)

(** The float64 operations of the notebook.  [of_int] converts an integer
    ([y.sum()], the literals [0], [1.], [1.0]), [half] is [0.5], [amin] is
    [1e-200], [neg_inf] is [-np.inf]; [leb] and [ltb] are [<=] and [<],
    [is_nan] is [np.isnan]. *)
Class Arith (T : Type) := {
  of_int : nat -> T;
  half : T;
  amin : T;
  neg_inf : T;
  add : T -> T -> T;
  sub : T -> T -> T;
  mul : T -> T -> T;
  div : T -> T -> T;
  opp : T -> T;
  log : T -> T;
  leb : T -> T -> bool;
  ltb : T -> T -> bool;
  is_nan : T -> bool
}.

(** The laws of the IEEE 754 comparisons: a comparison with [nan] is
    false, [<=] is a total preorder on the other values with [-inf] at
    the bottom, and [<] is its strict part. *)
Class ArithLaws (T : Type) `{Arith T} := {
  leb_nan_l : forall x y, is_nan x = true -> leb x y = false;
  leb_nan_r : forall x y, is_nan y = true -> leb x y = false;
  leb_total : forall x y, is_nan x = false -> is_nan y = false ->
                          leb x y = false -> leb y x = true;
  leb_trans : forall x y z, leb x y = true -> leb y z = true -> leb x z = true;
  ltb_leb : forall x y, ltb x y = leb x y && negb (leb y x);
  neg_inf_number : is_nan neg_inf = false;
  neg_inf_least : forall x, is_nan x = false -> leb neg_inf x = true
}.
Arguments ArithLaws T {_}.

(** What IEEE 754 says of [nan] in the arithmetic: an operation on a
    [nan] returns a [nan], and so does [0 / 0]. *)
Class NanLaws (T : Type) `{Arith T} := {
  nan_add_l : forall x y, is_nan x = true -> is_nan (add x y) = true;
  nan_add_r : forall x y, is_nan y = true -> is_nan (add x y) = true;
  nan_sub_l : forall x y, is_nan x = true -> is_nan (sub x y) = true;
  nan_sub_r : forall x y, is_nan y = true -> is_nan (sub x y) = true;
  nan_mul_l : forall x y, is_nan x = true -> is_nan (mul x y) = true;
  nan_mul_r : forall x y, is_nan y = true -> is_nan (mul x y) = true;
  nan_div_l : forall x y, is_nan x = true -> is_nan (div x y) = true;
  nan_opp : forall x, is_nan x = true -> is_nan (opp x) = true;
  nan_log : forall x, is_nan x = true -> is_nan (log x) = true;
  nan_div_0_0 : is_nan (div (of_int 0) (of_int 0)) = true
}.
Arguments NanLaws T {_}.

(** The binary64 numbers of the kernel, with their correctly rounded
    operations, to run the model on concrete inputs.  [np.log] is the
    logarithm of the platform, which is accurate to within one unit in the
    last place; its place is taken here by [flog], which sums the series
    [log m = 2 atanh ((m - 1) / (m + 1))] for the mantissa in
    double-double arithmetic and adds the exponent's multiple of
    [log 2].  The general statements are proved for every instance of
    [Arith]; this one serves the sample runs. *)
Module F64.
Local Open Scope float_scope.

(** An unevaluated sum of two floats. *)
Definition dd : Type := float * float.

Definition two_sum (a b : float) : dd :=
  let s := a + b in
  let bb := s - a in
  (s, (a - (s - bb)) + (b - bb)).

Definition split (a : float) : dd :=
  let c := 134217729 * a in
  let hi := c - (c - a) in
  (hi, a - hi).

Definition two_prod (a b : float) : dd :=
  let p := a * b in
  let '(ah, al) := split a in
  let '(bh, bl) := split b in
  (p, ((ah * bh - p) + ah * bl + al * bh) + al * bl).

Definition dd_add (x y : dd) : dd :=
  let '(s, e) := two_sum (fst x) (fst y) in
  two_sum s (e + (snd x + snd y)).

Definition dd_neg (x : dd) : dd := (- fst x, - snd x).

Definition dd_mul (x y : dd) : dd :=
  let '(p, e) := two_prod (fst x) (fst y) in
  two_sum p (e + (fst x * snd y + snd x * fst y)).

Definition dd_div (x y : dd) : dd :=
  let q1 := fst x / fst y in
  let r := dd_add x (dd_neg (dd_mul y (q1, 0))) in
  let q2 := fst r / fst y in
  let r := dd_add r (dd_neg (dd_mul y (q2, 0))) in
  let q3 := fst r / fst y in
  dd_add (two_sum q1 q2) (q3, 0).

Definition of_Z (z : Z) : float :=
  if (z <? 0)%Z then - of_uint63 (Uint63.of_Z (- z))
  else of_uint63 (Uint63.of_Z z).

(** [log 2] and [sqrt (1/2)]. *)
Definition ln2 : dd := (0x1.62e42fefa39efp-1, 0x1.abc9e3b39803fp-56).
Definition sqrt_half : float := 0x1.6a09e667f3bcdp-1.

(** [1 + s2 / 3 + s2^2 / 5 + ...], by Horner's rule from the last term
    [1 / d] down. *)
Fixpoint atanh_series (terms : nat) (d : float) (s2 acc : dd) : dd :=
  match terms with
  | O => acc
  | S terms' =>
      atanh_series terms' (d - 2) s2
        (dd_add (dd_div (1, 0) (d, 0)) (dd_mul s2 acc))
  end.

Definition flog (x : float) : float :=
  if PrimFloat.is_nan x then x
  else if x <? 0 then nan
  else if x =? 0 then neg_infinity
  else if x =? infinity then x
  else
    let (m, e) := Z.frexp x in
    let (m, e) := if m <? sqrt_half then (m * 2, (e - 1)%Z) else (m, e) in
    let s := dd_div (two_sum m (-1)) (two_sum m 1) in
    let r := atanh_series 22 43 (dd_mul s s) (0, 0) in
    let t := dd_add (dd_mul (of_Z e, 0) ln2) (dd_mul (dd_mul (2, 0) s) r) in
    fst t + snd t.

#[export] Instance float_arith : Arith float := {
  of_int := fun n => of_Z (Z.of_nat n);
  half := 0.5;
  amin := 0x1.87e92154ef7acp-665;
  neg_inf := neg_infinity;
  add := PrimFloat.add;
  sub := PrimFloat.sub;
  mul := PrimFloat.mul;
  div := PrimFloat.div;
  opp := PrimFloat.opp;
  log := flog;
  leb := PrimFloat.leb;
  ltb := PrimFloat.ltb;
  is_nan := PrimFloat.is_nan
}.
End F64.
Export F64.

(** ** Exceptions and results *)

Inductive exn := AssertionError | ValueError | IndexError.

(** What a Python call does: return, raise, or (for the model of the
  [while True] loop only) use up the iteration budget of the model. *)
Inductive outcome (A : Type) :=
| Ok (a : A)
| Raise (e : exn)
| OutOfFuel.
Arguments Ok {A} a.
Arguments Raise {A} e.
Arguments OutOfFuel {A}.

Definition obind {A B} (m : outcome A) (f : A -> outcome B) : outcome B :=
  match m with
  | Ok a => f a
  | Raise e => Raise e
  | OutOfFuel => OutOfFuel
  end.

Fixpoint omapM {A B} (f : A -> outcome B) (l : list A) : outcome (list B) :=
  match l with
  | [] => Ok []
  | a :: l' => obind (f a) (fun b => obind (omapM f l') (fun bs => Ok (b :: bs)))
  end.

(** ** One-dimensional arrays *)

Section Arrays.
Context {T : Type} `{Arith T}.

Definition zero : T := of_int 0.
Definition one : T := of_int 1.

(** A boolean entry of [X] in a float operation. *)
Definition of_bool (b : bool) : T := if b then one else zero.

(** Elementwise binary operation on two one-dimensional arrays, with
    NumPy's broadcasting: equal lengths, or one operand of length one,
    which is stretched; any other pair of lengths raises [ValueError]
    (operands could not be broadcast together). *)
Definition zip_with (f : T -> T -> T) (a b : list T) : list T :=
  map (fun ab => f (fst ab) (snd ab)) (combine a b).

Definition broadcast (f : T -> T -> T) (a b : list T) : outcome (list T) :=
  if length a =? length b then Ok (zip_with f a b)
  else match a, b with
       | [x], _ => Ok (map (f x) b)
       | _, [y] => Ok (map (fun u => f u y) a)
       | _, _ => Raise ValueError
       end.

(** [a.dot(b)] on one-dimensional arrays: the lengths must agree (no
    broadcasting), else [ValueError] (shapes not aligned).  NumPy leaves
    the order of the additions to the BLAS it is linked with; here the
    products are added from left to right. *)
Definition dot_step (acc : T) (ab : T * T) : T :=
  add acc (mul (fst ab) (snd ab)).

Definition dot (a b : list T) : outcome T :=
  if length a =? length b
  then Ok (fold_left dot_step (combine a b) zero)
  else Raise ValueError.

(** [np.log(v + amin)] *)
Definition log_floor (v : list T) : list T :=
  map (fun x => log (add x amin)) v.

(** [1. - v] *)
Definition complement (v : list T) : list T :=
  map (sub one) v.

(** [obj(p, w, q)] on a one-dimensional [p]. *)
Definition obj (p w q : list T) : outcome T :=
  let pbar := complement p in
  let qbar := complement q in
  obind (broadcast sub (log_floor p) (log_floor q)) (fun dp =>
  obind (broadcast mul p dp) (fun hp =>
  obind (broadcast sub (log_floor pbar) (log_floor qbar)) (fun dpbar =>
  obind (broadcast mul pbar dpbar) (fun hpbar =>
  obind (broadcast add hp hpbar) (fun H =>
  obind (dot H w) (fun d =>
  Ok (opp d))))))).

(** [obj] on a two-dimensional [p] (the call [obj(p_new, w, q)]): the
    trailing axis of [p] is broadcast against [q] and contracted with
    [w], row by row. *)
Definition obj_rows (p : list (list T)) (w q : list T) : outcome (list T) :=
  omapM (fun row => obj row w q) p.

End Arrays.

(** ** Matrices, masks and [argmax] *)

(** The attribute matrix [X]: [n_participants] rows of [n_attributes]
  booleans each ([X.shape]). *)
Record matrix := mkMatrix {
  n_attributes : nat;
  rows : list (list bool)
}.

Definition n_participants (X : matrix) : nat := length (rows X).

(** A two-dimensional array is rectangular. *)
Definition wf_matrix (X : matrix) : bool :=
  forallb (fun r => length r =? n_attributes X) (rows X).

(** The selection mask [y], a boolean array. *)
Definition mask := list bool.

(** [y.sum()] *)
Definition count (y : mask) : nat := length (filter (fun b => b) y).

(** [y[e] = True] for [e] within bounds. *)
Fixpoint set_at (y : mask) (e : nat) : mask :=
  match y, e with
  | [], _ => []
  | _ :: y', O => true :: y'
  | b :: y', S e' => b :: set_at y' e'
  end.

(** [np.flatnonzero(y)], the positions of the true entries, counted from
  [pos]. *)
Fixpoint flatnonzero_from (pos : nat) (y : mask) : list nat :=
  match y with
  | [] => []
  | b :: y' => if b then pos :: flatnonzero_from (S pos) y'
             else flatnonzero_from (S pos) y'
  end.

Definition flatnonzero (y : mask) : list nat := flatnonzero_from 0 y.

(** [X[y]], the rows of [X] where the mask is true. *)
Definition select {A} (y : mask) (l : list A) : list A :=
  map snd (filter (fun bx => fst bx) (combine y l)).

Section Greedy.
Context {T : Type} `{Arith T}.

(** The scan of NumPy's float [argmax]: the running maximum [mp] found
    at [ind] is replaced by the entry at [pos] when [not (x <= mp)], and
    the scan stops at the first [nan]. *)
Fixpoint argmax_from (l : list T) (pos : nat) (mp : T) (ind : nat) : nat :=
  match l with
  | [] => ind
  | x :: l' =>
      if leb x mp then argmax_from l' (S pos) mp ind
      else if is_nan x then pos
           else argmax_from l' (S pos) x pos
  end.

(** [np.argmax(d)]; an empty array raises [ValueError]. *)
Definition argmax (d : list T) : outcome nat :=
  match d with
  | [] => Raise ValueError
  | x :: l => if is_nan x then Ok 0 else Ok (argmax_from l 1 x 0)
  end.

(** [np.nanmean(X[y], axis=0)]: [X] is boolean, so this is the mean of
    the selected rows, the float sum of each column divided by the number
    of rows; with no row selected it is [0 / 0] in every column. *)
Definition column_sum (j : nat) (sel : list (list bool)) : nat :=
  length (filter (fun r => nth j r false) sel).

Definition nanmean (X : matrix) (y : mask) : list T :=
  let sel := select y (rows X) in
  map (fun j => div (of_int (column_sum j sel)) (of_int (length sel)))
      (seq 0 (n_attributes X)).

(** [(p * i + X) / (i + 1.0)], [p] broadcast along the rows of [X]. *)
Definition p_new (X : matrix) (p : list T) (i : nat) : list (list T) :=
  map (fun row =>
         map (fun px => div (add (mul (fst px) (of_int i)) (of_bool (snd px)))
                            (add (of_int i) one))
             (combine p row))
      (rows X).

(** The marginal gains [obj(p_new, w, q) - obj(p, w, q)], one per row. *)
Definition gains (X : matrix) (w q : list T) (y : mask) : outcome (list T) :=
  let i := count y in
  let p := nanmean X y in
  obind (obj_rows (p_new X p i) w q) (fun g =>
  obind (obj p w q) (fun base =>
  Ok (map (fun ge => sub ge base) g))).

(** [delta[y] = -np.inf] *)
Definition knock_out (y : mask) (delta : list T) : list T :=
  map (fun bd : bool * T => if fst bd then neg_inf else snd bd)
      (combine y delta).

(** One pass through the body of the [while] loop, after the exit
    test: [y[np.argmax(delta)] = True]. *)
Definition body (X : matrix) (w q : list T) (y : mask) : outcome mask :=
  obind (gains X w q y) (fun delta =>
  obind (argmax (knock_out y delta)) (fun e =>
  Ok (set_at y e))).

End Greedy.

(** ** Effects: the random generator and the work done *)

(** NumPy's global generator is a stream [entropy] of which [drawn] values
    have been consumed.  [iters] counts the passes through the body of the
    greedy loop; the code has no such counter, it records the selection
    work a call has done. *)
Record world := mkWorld {
  entropy : nat -> nat;
  drawn : nat;
  iters : nat
}.

Definition M (A : Type) := world -> outcome A * world.

Definition ret {A} (a : A) : M A := fun s => (Ok a, s).

Definition raise {A} (e : exn) : M A := fun s => (Raise e, s).

Definition bind {A B} (m : M A) (f : A -> M B) : M B :=
  fun s => match m s with
           | (Ok a, s') => f a s'
           | (Raise e, s') => (Raise e, s')
           | (OutOfFuel, s') => (OutOfFuel, s')
           end.

Definition pure {A} (m : outcome A) : M A := fun s => (m, s).

Notation "x <- m ;; k" := (bind m (fun x => k))
  (at level 61, m at next level, right associativity).
Notation "m ;;; k" := (bind m (fun _ => k))
  (at level 61, right associativity).

(** [assert c] *)
Definition assert (c : bool) : M unit :=
  if c then ret tt else raise AssertionError.

(** [np.random.choice(n, size=1)]: one index below [n], uniformly. *)
Definition random_choice (n : nat) : M (list nat) :=
  fun s => match n with
           | O => (Raise ValueError, s)
           | S _ => (Ok [entropy s (drawn s) mod n],
                     mkWorld (entropy s) (S (drawn s)) (iters s))
           end.

Definition tick : M unit :=
  fun s => (Ok tt, mkWorld (entropy s) (drawn s) (S (iters s))).

Fixpoint mapM {A B} (f : A -> M B) (l : list A) : M (list B) :=
  match l with
  | [] => ret []
  | a :: l' => b <- f a ;; bs <- mapM f l' ;; ret (b :: bs)
  end.

(** ** The selector [_entrofy] and the entry point [entrofy] *)

(** What [_entrofy] returns: the bare array [np.arange(n)] on the
    [k == n] path, the tuple [(score, indices)] after the loop. *)
Inductive selection (T : Type) :=
| Bare (idx : list nat)
| Pair (score : T) (idx : list nat).
Arguments Bare {T} idx.
Arguments Pair {T} score idx.

(** The first component [entrofy] unpacks from a result: a float from a
    tuple, an integer from an array of two. *)
Inductive scalar (T : Type) :=
| SInt (i : nat)
| SFloat (x : T).
Arguments SInt {T} i.
Arguments SFloat {T} x.

(** The second component. *)
Inductive solution :=
| VInt (i : nat)
| VArr (idx : list nat).

Section Entrofy.
Context {T : Type} `{Arith T}.

(** [y[pre_selects] = True] with a list of row numbers; a number out of
    bounds raises [IndexError].  Row numbers are natural numbers: NumPy's
    negative indices, which count from the end, are left out. *)
Definition set_rows (y : mask) (pre_selects : list nat) : outcome mask :=
  if forallb (fun e => e <? length y) pre_selects
  then Ok (fold_left set_at pre_selects y)
  else Raise IndexError.

(** The [while True] loop of [_entrofy]; [fuel] bounds the number of exit
    tests. *)
Fixpoint loop (X : matrix) (k : Z) (w q : list T) (fuel : nat) (y : mask)
  : M mask :=
  match fuel with
  | O => pure OutOfFuel
  | S fuel' =>
      let i := count y in
      if (k <=? Z.of_nat i)%Z then ret y
      else tick ;;;
           y' <- pure (body X w q y) ;;
           loop X k w q fuel' y'
  end.

(** [np.ones(f)] and [0.5 * np.ones(f)] *)
Definition ones (f : nat) : list T := repeat one f.

Definition halves (f : nat) : list T := repeat (mul half one) f.

Definition weights (X : matrix) (w : option (list T)) : list T :=
  match w with None => ones (n_attributes X) | Some w => w end.

Definition targets (X : matrix) (q : option (list T)) : list T :=
  match q with None => halves (n_attributes X) | Some q => q end.

(** The mask after [y[pre_selects] = True]. *)
Definition seed_mask (X : matrix) (pre_selects : list nat) : outcome mask :=
  set_rows (repeat false (n_participants X)) pre_selects.

Definition _entrofy (X : matrix) (k : Z) (w q : option (list T))
  (pre_selects : option (list nat)) : M (selection T) :=
  let n_participants := n_participants X in
  let n_attributes := n_attributes X in
  let w := weights X w in
  let q := targets X q in
  assert ((0 <? k)%Z && (k <=? Z.of_nat n_participants)%Z) ;;;
  assert (negb (existsb (fun x => ltb x zero) w)) ;;;
  assert (forallb (fun x => leb zero x) q
          && forallb (fun x => leb x one) q) ;;;
  assert (length w =? n_attributes) ;;;
  assert (length q =? n_attributes) ;;;
  if (k =? Z.of_nat n_participants)%Z then ret (Bare (seq 0 n_participants))
  else
    pre_selects <- match pre_selects with
                   | None => random_choice n_participants
                   | Some ps => ret ps
                   end ;;
    y <- pure (seed_mask X pre_selects) ;;
    y <- loop X k w q (S n_participants) y ;;
    score <- pure (obj (nanmean X y) w q) ;;
    ret (Pair score (flatnonzero y)).

(** [a, b = r] *)
Definition unpack (r : selection T) : outcome (scalar T * solution) :=
  match r with
  | Pair score idx => Ok (SFloat score, VArr idx)
  | Bare [a; b] => Ok (SInt a, VInt b)
  | Bare _ => Raise ValueError
  end.

Definition float_of_scalar (a : scalar T) : T :=
  match a with SInt i => of_int i | SFloat x => x end.

(** [a > b] *)
Definition scalar_gt (a b : scalar T) : bool :=
  match a, b with
  | SInt i, SInt j => j <? i
  | _, _ => ltb (float_of_scalar b) (float_of_scalar a)
  end.

(** The [for score, solution in results[1:]] loop. *)
Fixpoint best_of (results : list (selection T)) (max_score : scalar T)
  (best : solution) : outcome (scalar T * solution) :=
  match results with
  | [] => Ok (max_score, best)
  | r :: rest =>
      obind (unpack r) (fun ss =>
      if scalar_gt (fst ss) max_score then best_of rest (fst ss) (snd ss)
      else best_of rest max_score best)
  end.

Definition reduce (results : list (selection T))
  : outcome (scalar T * solution) :=
  match results with
  | [] => Raise IndexError
  | r0 :: rest => obind (unpack r0) (fun mb => best_of rest (fst mb) (snd mb))
  end.

(** The trials of one call: [n_samples] of them, one when [pre_selects]
    is given. *)
Definition trials (pre_selects : option (list nat)) (n_samples : nat) : nat :=
  match pre_selects with Some _ => 1 | None => n_samples end.

Definition entrofy (X : matrix) (k : Z) (w q : option (list T))
  (pre_selects : option (list nat)) (n_samples : nat)
  : M (scalar T * solution) :=
  let n_samples := trials pre_selects n_samples in
  results <- mapM (fun _ => _entrofy X k w q pre_selects) (seq 0 n_samples) ;;
  pure (reduce results).

End Entrofy.

(** ** Inputs the asserts admit *)

Section Validity.
Context {T : Type} `{Arith T}.

Definition valid_weights (w : list T) (f : nat) : bool :=
  negb (existsb (fun x => ltb x zero) w) && (length w =? f).

Definition valid_targets (q : list T) (f : nat) : bool :=
  forallb (fun x => leb zero x) q && forallb (fun x => leb x one) q
  && (length q =? f).

(** A rectangular matrix with weights and targets that pass the asserts
    of [_entrofy]. *)
Definition valid_data (X : matrix) (w q : option (list T)) : bool :=
  wf_matrix X
  && valid_weights (weights X w) (n_attributes X)
  && valid_targets (targets X q) (n_attributes X).

(** The five asserts of [_entrofy], in their order. *)
Definition asserts_hold (X : matrix) (k : Z) (w q : option (list T)) : bool :=
  ((0 <? k)%Z && (k <=? Z.of_nat (n_participants X))%Z)
  && negb (existsb (fun x => ltb x zero) (weights X w))
  && (forallb (fun x => leb zero x) (targets X q)
      && forallb (fun x => leb x one) (targets X q))
  && (length (weights X w) =? n_attributes X)
  && (length (targets X q) =? n_attributes X).

(** Row identifiers: numbers of rows of [X]. *)
Definition row_ids (X : matrix) (ps : list nat) : bool :=
  forallb (fun e => e <? n_participants X) ps.

Definition distinct (ps : list nat) : nat := length (nodup Nat.eq_dec ps).

End Validity.

(** ** Vocabulary of the statements *)

(** The length NumPy gives the result of an elementwise operation on two
    one-dimensional arrays of lengths [a] and [b], if it accepts them. *)
Definition broadcast_length (a b : nat) : option nat :=
  if a =? b then Some a
  else if a =? 1 then Some b
  else if b =? 1 then Some a
  else None.

(** The shapes [obj] accepts: [p] and [q] broadcast together, to the
    length of [w]. *)
Definition obj_shapes_agree (p w q : nat) : bool :=
  match broadcast_length p q with
  | Some m => m =? w
  | None => false
  end.

(** The lengths [obj] accepts, spelled out. *)
Definition obj_lengths_accepted (p w q : nat) : Prop :=
  (p = q /\ w = p) \/ (p = 1 /\ w = q) \/ (q = 1 /\ w = p).

(** All the masks of a length. *)
Fixpoint masks (n : nat) : list mask :=
  match n with
  | O => [[]]
  | S n' => map (cons false) (masks n') ++ map (cons true) (masks n')
  end.

Section Vocabulary.
Context {T : Type} `{Arith T}.

(** One pass of the [while] loop of [_entrofy] with target size [k]: the
    exit test fails at [y] and the body turns [y] into [y']. *)
Inductive iteration (X : matrix) (k : Z) (w q : list T) : mask -> mask -> Prop :=
| iteration_pass (y y' : mask) :
    (Z.of_nat (count y) < k)%Z -> body X w q y = Ok y' ->
    iteration X k w q y y'.

(** The masks a run passes through from its seed mask [y0]. *)
Inductive visited (X : matrix) (k : Z) (w q : list T) (y0 : mask) : mask -> Prop :=
| visited_seed : visited X k w q y0 y0
| visited_pass (y y' : mask) :
    visited X k w q y0 y -> iteration X k w q y y' -> visited X k w q y0 y'.

(** A gain that [np.argmax] prefers to the [-inf] of a knocked-out row:
    a [nan], or a number above [-inf]. *)
Definition above_neg_inf (g : T) : bool := is_nan g || ltb neg_inf g.

(** Some row that is not selected has such a gain. *)
Definition live (y : mask) (delta : list T) : bool :=
  existsb (fun bd : bool * T => negb (fst bd) && above_neg_inf (snd bd))
          (combine y delta).

(** The gains do not all overflow: whatever rows are selected, as long as
    one is left, the gain of some row that is left is not [-inf]. *)
Definition gains_live (X : matrix) (w q : list T) : Prop :=
  forall y delta,
    length y = n_participants X -> count y < n_participants X ->
    gains X w q y = Ok delta -> live y delta = true.

(** The same, decided on a list of masks. *)
Definition gains_live_on (X : matrix) (w q : list T) (ys : list mask) : bool :=
  forallb (fun y => (n_participants X <=? count y)
                    || match gains X w q y with
                       | Ok delta => live y delta
                       | _ => true
                       end)
          ys.

(** The candidate mean of row [e], [p' = (p * i + X[e]) / (i + 1)], and
    its marginal gain [delta[e] = obj(p', w, q) - obj(p, w, q)], where [p]
    is the mean of the [i] rows selected. *)
Definition candidate (X : matrix) (y : mask) (e : nat) : list T :=
  map (fun px => div (add (mul (fst px) (of_int (count y))) (of_bool (snd px)))
                     (add (of_int (count y)) one))
      (combine (nanmean X y) (nth e (rows X) [])).

Definition marginal_gain (X : matrix) (w q : list T) (y : mask) (e : nat)
  : outcome T :=
  obind (obj (candidate X y e) w q) (fun o' =>
  obind (obj (nanmean X y) w q) (fun o =>
  Ok (sub o' o))).

(** What [np.argmax] returns on [d]: the position of the first [nan], or
    with no [nan] the first position of a greatest entry. *)
Definition first_best (d : list T) (e : nat) : Prop :=
  e < length d
  /\ (forall j, j < e -> is_nan (nth j d zero) = false
                         /\ leb (nth e d zero) (nth j d zero) = false)
  /\ (is_nan (nth e d zero) = true
      \/ forall j, j < length d -> leb (nth j d zero) (nth e d zero) = true).

(** The generator draws used by one run on the greedy path. *)
Definition draws_of (pre_selects : option (list nat)) : nat :=
  match pre_selects with Some _ => 0 | None => 1 end.

(** The inputs the asserts of [_entrofy] are there to reject: [k] out of
    [(0, n]], a negative weight, a target outside [[0, 1]], weights or
    targets of a length other than the number of attributes. *)
Definition violates (X : matrix) (k : Z) (w q : option (list T)) : Prop :=
  (k <= 0)%Z
  \/ (Z.of_nat (n_participants X) < k)%Z
  \/ Exists (fun x => ltb x zero = true) (weights X w)
  \/ Exists (fun x => ltb x zero = true \/ ltb one x = true) (targets X q)
  \/ length (weights X w) <> n_attributes X
  \/ length (targets X q) <> n_attributes X.

(** The number of rows of the seed of one run: the distinct rows given, or
    the one row drawn. *)
Definition seed_size (pre_selects : option (list nat)) : nat :=
  match pre_selects with Some ps => distinct ps | None => 1 end.

(** The seed rows of one run started in the world [s]: the rows given, or
    the row drawn. *)
Definition seed_rows (X : matrix) (pre_selects : option (list nat)) (s : world)
  : list nat :=
  match pre_selects with
  | Some ps => ps
  | None => [entropy s (drawn s) mod n_participants X]
  end.

(** A run of the greedy path from the seed rows [ps]: its seed mask [y0],
    its last mask [yf] and the score [x] of [yf].  The run makes no pass
    when the seed already has [k] rows or more, and ends with [k] rows
    otherwise. *)
Definition run_from (X : matrix) (k : Z) (w q : option (list T))
  (ps : list nat) (y0 yf : mask) (x : T) : Prop :=
  seed_mask X ps = Ok y0
  /\ visited X k (weights X w) (targets X q) y0 yf
  /\ length yf = n_participants X
  /\ (k <= Z.of_nat (count yf))%Z
  /\ ((k <= Z.of_nat (count y0))%Z -> yf = y0)
  /\ ((Z.of_nat (count y0) < k)%Z -> Z.of_nat (count yf) = k)
  /\ obj (nanmean X yf) (weights X w) (targets X q) = Ok x.

(** The world after [draws] more draws and [passes] more passes. *)
Definition advance (s : world) (draws passes : nat) : world :=
  mkWorld (entropy s) (drawn s + draws) (iters s + passes).

(** What [_entrofy] can do on a call, told from its arguments: the asserts
    fail; or they hold and a pre-selected row is out of bounds; or they
    hold and the loop is entered (to return the full panel at once when
    [k == n]). *)
Inductive verdict := Rejects | Returns | OutOfBounds.

Definition verdict_of (X : matrix) (k : Z) (w q : option (list T))
  (pre_selects : option (list nat)) : verdict :=
  if asserts_hold X k w q then
    if (k =? Z.of_nat (n_participants X))%Z then Returns
    else match pre_selects with
         | Some ps => if row_ids X ps then Returns else OutOfBounds
         | None => Returns
         end
  else Rejects.

End Vocabulary.

(** ** Sample inputs *)

Module Sample.

(** Four participants, two attributes. *)
Definition X4 : matrix :=
  mkMatrix 2 [[true; false]; [false; true]; [true; true]; [false; false]].

(** Three participants, one attribute. *)
Definition X3 : matrix := mkMatrix 1 [[true]; [false]; [true]].

(** Two participants, one attribute. *)
Definition X2 : matrix := mkMatrix 1 [[true]; [false]].

(** Three participants, one attribute, with the weight [1e306] and the
    target [0.]: the gains of rows [1] and [2] overflow. *)
Definition Xo : matrix := mkMatrix 1 [[false]; [true]; [true]].
Definition w_huge : list float := [0x1.6c8e5ca239029p+1016%float].
Definition q_zero : list float := [0%float].

(** A generator whose [t]-th draw is [t + 2], nothing drawn yet, no pass
    made yet. *)
Definition s0 : world := mkWorld (fun t => t + 2) 0 0.

End Sample.

(** ** The comparisons of binary64 *)

Module F64Laws.

Lemma SFcompare_refl (f : spec_float) :
  f <> S754_nan -> SFcompare f f = Some Eq.
Proof.
  destruct f as [s|s| |s m e]; simpl; try congruence; intros _.
  - destruct s; reflexivity.
  - destruct s; rewrite Z.compare_refl;
      change (Pos.compare_cont Eq m m) with (Pos.compare m m);
      rewrite Pos.compare_refl; reflexivity.
Qed.

Lemma is_nan_spec (x : float) :
  PrimFloat.is_nan x = true <-> Prim2SF x = S754_nan.
Proof.
  unfold PrimFloat.is_nan. rewrite FloatAxioms.eqb_spec. unfold SFeqb.
  destruct (Prim2SF x) as [s|s| |s m e] eqn:E.
  - simpl. split; discriminate.
  - destruct s; simpl; split; discriminate.
  - simpl. split; reflexivity.
  - rewrite SFcompare_refl by discriminate. simpl. split; discriminate.
Qed.

Lemma is_nan_false (x : float) :
  PrimFloat.is_nan x = false <-> Prim2SF x <> S754_nan.
Proof.
  rewrite <- is_nan_spec. destruct (PrimFloat.is_nan x); split; congruence.
Qed.

Ltac compare_cases :=
  repeat match goal with
  | |- context [Z.compare ?a ?b] => destruct (Z.compare_spec a b); subst
  | |- context [Pos.compare_cont Eq ?a ?b] =>
      change (Pos.compare_cont Eq a b) with (Pos.compare a b);
      destruct (Pos.compare_spec a b); subst
  end.

Ltac sign_cases :=
  repeat match goal with s : bool |- _ => destruct s end; simpl.

Lemma SFleb_nan_l (y : spec_float) : SFleb S754_nan y = false.
Proof. reflexivity. Qed.

Lemma SFleb_nan_r (x : spec_float) : SFleb x S754_nan = false.
Proof. destruct x; reflexivity. Qed.

Lemma SFleb_total (x y : spec_float) :
  x <> S754_nan -> y <> S754_nan -> SFleb x y = false -> SFleb y x = true.
Proof.
  unfold SFleb.
  destruct x as [sx|sx| |sx mx ex], y as [sy|sy| |sy my ey]; simpl;
    try congruence; intros _ _; sign_cases;
    try congruence; compare_cases; simpl; try congruence; lia.
Qed.

Lemma SFleb_trans (x y z : spec_float) :
  SFleb x y = true -> SFleb y z = true -> SFleb x z = true.
Proof.
  unfold SFleb.
  destruct x as [sx|sx| |sx mx ex], y as [sy|sy| |sy my ey],
    z as [sz|sz| |sz mz ez]; simpl; try congruence; sign_cases;
    try congruence; compare_cases; simpl; try congruence; lia.
Qed.

Lemma SFltb_SFleb (x y : spec_float) :
  SFltb x y = SFleb x y && negb (SFleb y x).
Proof.
  unfold SFltb, SFleb.
  destruct x as [sx|sx| |sx mx ex], y as [sy|sy| |sy my ey]; simpl;
    try reflexivity; sign_cases;
    try reflexivity; compare_cases; simpl; try reflexivity; lia.
Qed.

Lemma SFleb_neg_infinity (x : spec_float) :
  x <> S754_nan -> SFleb (S754_infinity true) x = true.
Proof.
  destruct x as [s|s| |s m e]; try congruence; intros _;
    try destruct s; reflexivity.
Qed.

#[export] Instance float_laws : ArithLaws float.
Proof.
  constructor; simpl.
  - intros x y Hx. apply is_nan_spec in Hx.
    rewrite FloatAxioms.leb_spec, Hx. apply SFleb_nan_l.
  - intros x y Hy. apply is_nan_spec in Hy.
    rewrite FloatAxioms.leb_spec, Hy. apply SFleb_nan_r.
  - intros x y Hx Hy. rewrite !FloatAxioms.leb_spec.
    apply SFleb_total; now apply is_nan_false.
  - intros x y z. rewrite !FloatAxioms.leb_spec. apply SFleb_trans.
  - intros x y. rewrite FloatAxioms.ltb_spec, !FloatAxioms.leb_spec. apply SFltb_SFleb.
  - reflexivity.
  - intros x Hx. rewrite FloatAxioms.leb_spec. change (Prim2SF neg_infinity)
      with (S754_infinity true). apply SFleb_neg_infinity.
    now apply is_nan_false.
Qed.

(** [flog] returns the correctly rounded logarithm at these arguments,
    [1e-200] among them. *)
Lemma flog_samples :
  (flog 1 = 0
   /\ flog 0.5 = -0x1.62e42fefa39efp-1
   /\ flog 2 = 0x1.62e42fefa39efp-1
   /\ flog 0x1.87e92154ef7acp-665 = -0x1.cc845b54b54f2p+8
   /\ flog 0.25 = -0x1.62e42fefa39efp+0
   /\ flog 0.75 = -0x1.269621134db92p-2
   /\ flog 0x1.5555555555555p-2 = -0x1.193ea7aad030bp+0
   /\ flog 0x1.5555555555555p-1 = -0x1.9f323ecbf984dp-2
   /\ flog 3 = 0x1.193ea7aad030bp+0
   /\ flog 0 = neg_infinity
   /\ flog infinity = infinity
   /\ PrimFloat.is_nan (flog (-1)) = true)%float.
Proof. repeat split; vm_compute; reflexivity. Qed.

(** An operation of binary64 on a [nan] returns a [nan]. *)
Lemma SF64add_nan_r (x : spec_float) : SF64add x S754_nan = S754_nan.
Proof. destruct x; reflexivity. Qed.

Lemma SF64sub_nan_r (x : spec_float) : SF64sub x S754_nan = S754_nan.
Proof. destruct x; reflexivity. Qed.

Lemma SF64mul_nan_r (x : spec_float) : SF64mul x S754_nan = S754_nan.
Proof. destruct x; reflexivity. Qed.

#[export] Instance float_nan_laws : NanLaws float.
Proof.
  constructor; simpl.
  - intros x y Hx. apply is_nan_spec in Hx. apply is_nan_spec.
    rewrite FloatAxioms.add_spec, Hx. reflexivity.
  - intros x y Hy. apply is_nan_spec in Hy. apply is_nan_spec.
    rewrite FloatAxioms.add_spec, Hy. apply SF64add_nan_r.
  - intros x y Hx. apply is_nan_spec in Hx. apply is_nan_spec.
    rewrite FloatAxioms.sub_spec, Hx. reflexivity.
  - intros x y Hy. apply is_nan_spec in Hy. apply is_nan_spec.
    rewrite FloatAxioms.sub_spec, Hy. apply SF64sub_nan_r.
  - intros x y Hx. apply is_nan_spec in Hx. apply is_nan_spec.
    rewrite FloatAxioms.mul_spec, Hx. reflexivity.
  - intros x y Hy. apply is_nan_spec in Hy. apply is_nan_spec.
    rewrite FloatAxioms.mul_spec, Hy. apply SF64mul_nan_r.
  - intros x y Hx. apply is_nan_spec in Hx. apply is_nan_spec.
    rewrite FloatAxioms.div_spec, Hx. reflexivity.
  - intros x Hx. apply is_nan_spec in Hx. apply is_nan_spec.
    rewrite FloatAxioms.opp_spec, Hx. reflexivity.
  - intros x Hx. unfold flog. rewrite Hx. exact Hx.
  - reflexivity.
Qed.

End F64Laws.
Export F64Laws.

(** ** Masks *)

Lemma set_at_length (y : mask) (e : nat) : length (set_at y e) = length y.
Proof.
  revert e; induction y as [|b y IH]; intros [|e]; simpl; auto.
Qed.

Lemma set_at_nth (y : mask) (e j : nat) :
  nth j (set_at y e) false =
  if (j =? e) && (e <? length y) then true else nth j y false.
Proof.
  revert e j; induction y as [|b y IH]; intros e j.
  - simpl. rewrite Bool.andb_false_r. destruct e, j; reflexivity.
  - destruct e as [|e], j as [|j]; simpl; auto.
Qed.

Lemma count_cons (b : bool) (y : mask) :
  count (b :: y) = (if b then 1 else 0) + count y.
Proof. unfold count; destruct b; reflexivity. Qed.

Lemma count_le_length (y : mask) : count y <= length y.
Proof. unfold count. apply filter_length_le. Qed.

Lemma count_set_at (y : mask) (e : nat) :
  e < length y ->
  count (set_at y e) = if nth e y false then count y else S (count y).
Proof.
  revert e; induction y as [|b y IH]; intros [|e] He; simpl in *; try lia.
  - rewrite !count_cons. destruct b; reflexivity.
  - rewrite !count_cons, IH by lia. destruct (nth e y false); lia.
Qed.

Lemma count_repeat_false (n : nat) : count (repeat false n) = 0.
Proof. induction n; simpl; auto. Qed.

Lemma count_lt_unselected (y : mask) :
  count y < length y -> exists j, j < length y /\ nth j y false = false.
Proof.
  induction y as [|b y IH]; simpl; [lia|].
  rewrite count_cons. destruct b; intros Hc.
  - destruct IH as [j [Hj Hn]]; [simpl in Hc; lia|].
    exists (S j); split; [lia|exact Hn].
  - exists 0; split; [lia|reflexivity].
Qed.

Lemma flatnonzero_from_In (pos : nat) (y : mask) (e : nat) :
  In e (flatnonzero_from pos y) <->
  pos <= e /\ e - pos < length y /\ nth (e - pos) y false = true.
Proof.
  revert pos; induction y as [|b y IH]; intros pos; simpl.
  - split; [tauto|lia].
  - destruct b; simpl; rewrite IH; split.
    + intros [<-|[H1 [H2 H3]]].
      * replace (pos - pos) with 0 by lia. repeat split; auto; lia.
      * replace (e - pos) with (S (e - S pos)) by lia. repeat split; auto; lia.
    + intros [H1 [H2 H3]]. destruct (Nat.eq_dec pos e) as [->|Hne]; [now left|right].
      replace (e - pos) with (S (e - S pos)) in H3 by lia. repeat split; auto; lia.
    + intros [H1 [H2 H3]].
      replace (e - pos) with (S (e - S pos)) by lia. repeat split; auto; lia.
    + intros [H1 [H2 H3]]. destruct (e - pos) as [|d] eqn:Ed; [discriminate|].
      replace (e - S pos) with d by lia. repeat split; auto; lia.
Qed.

Lemma flatnonzero_In (y : mask) (e : nat) :
  In e (flatnonzero y) <-> e < length y /\ nth e y false = true.
Proof.
  unfold flatnonzero. rewrite flatnonzero_from_In, Nat.sub_0_r.
  split; [tauto|]. intros [? ?]; repeat split; auto; lia.
Qed.

Lemma flatnonzero_from_length (pos : nat) (y : mask) :
  length (flatnonzero_from pos y) = count y.
Proof.
  revert pos; induction y as [|b y IH]; intros pos; simpl; auto.
  rewrite count_cons. destruct b; simpl; rewrite IH; reflexivity.
Qed.

Lemma flatnonzero_from_sorted (pos : nat) (y : mask) :
  StronglySorted lt (flatnonzero_from pos y).
Proof.
  revert pos; induction y as [|b y IH]; intros pos; simpl; [constructor|].
  destruct b; auto. constructor; auto.
  apply Forall_forall. intros e He. apply flatnonzero_from_In in He. lia.
Qed.

Lemma sorted_lt_NoDup (l : list nat) : StronglySorted lt l -> NoDup l.
Proof.
  induction 1 as [|a l Hs IH Hall]; constructor; auto.
  intros Hin. rewrite Forall_forall in Hall. specialize (Hall a Hin). lia.
Qed.

(** The index array of a mask: as many entries as the mask has true
    entries, ascending, without repetition, all within bounds. *)
Lemma flatnonzero_spec (y : mask) :
  length (flatnonzero y) = count y
  /\ StronglySorted lt (flatnonzero y)
  /\ NoDup (flatnonzero y)
  /\ Forall (fun e => e < length y) (flatnonzero y).
Proof.
  unfold flatnonzero. repeat split.
  - apply flatnonzero_from_length.
  - apply flatnonzero_from_sorted.
  - apply sorted_lt_NoDup, flatnonzero_from_sorted.
  - apply Forall_forall. intros e He. apply flatnonzero_In in He. tauto.
Qed.

(** ** The seed mask *)

Lemma fold_set_at_length (ps : list nat) (y : mask) :
  length (fold_left set_at ps y) = length y.
Proof.
  revert y; induction ps as [|e ps IH]; intros y; simpl; auto.
  rewrite IH. apply set_at_length.
Qed.

Lemma fold_set_at_nth (ps : list nat) (y : mask) (j : nat) :
  nth j (fold_left set_at ps y) false = true <->
  (In j ps /\ j < length y) \/ nth j y false = true.
Proof.
  revert y; induction ps as [|e ps IH]; intros y; simpl.
  - tauto.
  - rewrite IH, set_at_length, set_at_nth.
    destruct (Nat.eqb_spec j e) as [->|Hne]; simpl.
    + destruct (Nat.ltb_spec e (length y)); split; intros; try tauto.
      destruct H0 as [[_ ?]|?]; [lia|tauto].
    + split; intros [[Hin Hlt]|Hn]; try tauto.
      destruct Hin; [congruence|tauto].
Qed.

Lemma seed_mask_ok (X : matrix) (ps : list nat) :
  row_ids X ps = true ->
  seed_mask X ps = Ok (fold_left set_at ps (repeat false (n_participants X))).
Proof.
  unfold seed_mask, set_rows, row_ids. rewrite repeat_length. intros ->. reflexivity.
Qed.

Lemma seed_mask_out_of_bounds (X : matrix) (ps : list nat) :
  row_ids X ps = false -> seed_mask X ps = Raise IndexError.
Proof.
  unfold seed_mask, set_rows, row_ids. rewrite repeat_length. intros ->. reflexivity.
Qed.

Lemma nth_repeat_false (n j : nat) : nth j (repeat false n) false = false.
Proof.
  revert j; induction n; intros [|j]; simpl; auto.
Qed.

Section SeedMask.
Variables (X : matrix) (ps : list nat) (y0 : mask).
Hypothesis Hids : row_ids X ps = true.
Hypothesis Hseed : seed_mask X ps = Ok y0.

Lemma seed_mask_length : length y0 = n_participants X.
Proof using Hids Hseed.
  rewrite seed_mask_ok in Hseed by assumption. injection Hseed as <-.
  rewrite fold_set_at_length. apply repeat_length.
Qed.

Lemma seed_mask_nth (e : nat) : nth e y0 false = true <-> In e ps.
Proof using Hids Hseed.
  rewrite seed_mask_ok in Hseed by assumption. injection Hseed as <-.
  rewrite fold_set_at_nth, nth_repeat_false, repeat_length.
  unfold row_ids in Hids. rewrite forallb_forall in Hids.
  split.
  - intros [[? _]|?]; [assumption|discriminate].
  - intros Hin. left. split; auto. apply Nat.ltb_lt. auto.
Qed.

Lemma seed_mask_flatnonzero (e : nat) : In e (flatnonzero y0) <-> In e ps.
Proof using Hids Hseed.
  rewrite flatnonzero_In, seed_mask_nth. split; [tauto|].
  intros Hin; split; auto. rewrite seed_mask_length.
  unfold row_ids in Hids. rewrite forallb_forall in Hids.
  apply Nat.ltb_lt. auto.
Qed.

(** The seed mask has one true entry per distinct pre-selected row. *)
Lemma seed_mask_count : count y0 = distinct ps.
Proof using Hids Hseed.
  destruct (flatnonzero_spec y0) as [Hlen [_ [Hnd _]]].
  rewrite <- Hlen. unfold distinct.
  apply Nat.le_antisymm; apply NoDup_incl_length.
  - exact Hnd.
  - intros e He. apply nodup_In. now apply seed_mask_flatnonzero.
  - apply NoDup_nodup.
  - intros e He. apply nodup_In in He. now apply seed_mask_flatnonzero.
Qed.

End SeedMask.

Lemma seed_mask_row_ids (X : matrix) (ps : list nat) (y0 : mask) :
  seed_mask X ps = Ok y0 -> row_ids X ps = true.
Proof.
  intros Hs. destruct (row_ids X ps) eqn:E; auto.
  rewrite seed_mask_out_of_bounds in Hs by assumption. discriminate.
Qed.

(** The seed mask depends on the set of the rows given, not on their
    order or number of occurrences. *)
Lemma seed_mask_same_elements (X : matrix) (ps ps' : list nat) :
  (forall e, In e ps <-> In e ps') -> seed_mask X ps = seed_mask X ps'.
Proof.
  intros Hsame.
  assert (Hids : row_ids X ps = row_ids X ps').
  { unfold row_ids. destruct (forallb _ ps) eqn:E; symmetry.
    - apply forallb_forall. intros e He.
      rewrite forallb_forall in E. apply E, Hsame, He.
    - destruct (forallb _ ps') eqn:E'; auto. rewrite <- E. symmetry.
      apply forallb_forall. intros e He.
      rewrite forallb_forall in E'. apply E', Hsame, He. }
  destruct (row_ids X ps) eqn:E.
  - pose proof (seed_mask_ok X ps E) as H1.
    pose proof (seed_mask_ok X ps' (eq_sym Hids)) as H2.
    rewrite H1, H2. f_equal.
    apply nth_ext with (d := false) (d' := false).
    + now rewrite !fold_set_at_length.
    + intros j _.
      pose proof (seed_mask_nth X ps E H1 j) as N1.
      pose proof (seed_mask_nth X ps' (eq_sym Hids) H2 j) as N2.
      destruct (nth j (fold_left set_at ps (repeat false (n_participants X))) false);
        destruct (nth j (fold_left set_at ps' (repeat false (n_participants X))) false);
        auto.
      * assert (false = true) by (apply N2, Hsame, N1; reflexivity). congruence.
      * assert (false = true) by (apply N1, Hsame, N2; reflexivity). congruence.
  - rewrite !seed_mask_out_of_bounds; congruence.
Qed.

(** Writing [True] at the indices of a mask into an empty mask gives the
    mask back. *)
Lemma seed_mask_of_flatnonzero (X : matrix) (y : mask) :
  length y = n_participants X -> seed_mask X (flatnonzero y) = Ok y.
Proof.
  intros Hy.
  assert (Hids : row_ids X (flatnonzero y) = true).
  { unfold row_ids. apply forallb_forall. intros e He.
    apply flatnonzero_In in He. apply Nat.ltb_lt. lia. }
  rewrite (seed_mask_ok X _ Hids). f_equal.
  apply nth_ext with (d := false) (d' := false).
  - rewrite fold_set_at_length, repeat_length. congruence.
  - intros j _.
    pose proof (fold_set_at_nth (flatnonzero y)
                  (repeat false (n_participants X)) j) as Hn.
    rewrite nth_repeat_false, repeat_length in Hn.
    pose proof (flatnonzero_In y j) as Hf.
    destruct (nth j (fold_left set_at (flatnonzero y)
                       (repeat false (n_participants X))) false);
      destruct (nth j y false) eqn:Ey; auto.
    + destruct Hn as [Hn _]. destruct (Hn eq_refl) as [[Hin _]|?]; [|discriminate].
      apply Hf in Hin. destruct Hin; discriminate.
    + assert (Hj : j < length y).
      { destruct (Nat.lt_ge_cases j (length y)) as [L|G]; auto.
        rewrite nth_overflow in Ey by exact G. discriminate. }
      destruct Hn as [_ Hn]. apply Hn. left.
      split; [apply Hf; auto|lia].
Qed.


(** ** Shapes in [obj] *)

Lemma omapM_ok {A B} (f : A -> outcome B) (P : B -> Prop) (l : list A) :
  (forall a, In a l -> exists b, f a = Ok b /\ P b) ->
  exists bs, omapM f l = Ok bs /\ length bs = length l /\ Forall P bs.
Proof.
  induction l as [|a l IH]; intros Hf; simpl.
  - exists []; auto.
  - destruct (Hf a (or_introl eq_refl)) as [b [-> Hb]].
    destruct IH as [bs [-> [Hl Hbs]]]; [intros; apply Hf; now right|].
    exists (b :: bs); simpl; auto.
Qed.

Section ObjShapes.
Context {T : Type} `{Arith T}.

Lemma broadcast_spec (f : T -> T -> T) (a b : list T) :
  match broadcast_length (length a) (length b) with
  | Some m => exists l, broadcast f a b = Ok l /\ length l = m
  | None => broadcast f a b = Raise ValueError
  end.
Proof.
  unfold broadcast_length, broadcast.
  destruct (Nat.eqb_spec (length a) (length b)) as [E|E].
  - eexists; split; [reflexivity|].
    unfold zip_with. rewrite length_map, length_combine. lia.
  - destruct a as [|x [|x' a]]; simpl in *.
    + destruct b as [|y [|y' b]]; simpl in *; try congruence.
      eexists; split; reflexivity.
    + eexists; split; [reflexivity|]. apply length_map.
    + destruct b as [|y [|y' b]]; simpl in *; try reflexivity.
      eexists; split; [reflexivity|]. simpl. rewrite length_map. reflexivity.
Qed.

Lemma broadcast_length_absorb (a b m : nat) :
  broadcast_length a b = Some m -> broadcast_length a m = Some m.
Proof.
  unfold broadcast_length.
  destruct (Nat.eqb_spec a b); [intros [= <-]; now rewrite Nat.eqb_refl|].
  destruct (Nat.eqb_spec a 1).
  - intros [= <-]. destruct (Nat.eqb_spec a b); congruence.
  - destruct (Nat.eqb_spec b 1); [|discriminate].
    intros [= <-]. now rewrite Nat.eqb_refl.
Qed.

Lemma dot_spec (a b : list T) :
  if length a =? length b then exists v, dot a b = Ok v
  else dot a b = Raise ValueError.
Proof.
  unfold dot. destruct (length a =? length b); eauto.
Qed.

(** What [obj] does with every triple of lengths. *)
Lemma obj_shapes (p w q : list T) :
  if obj_shapes_agree (length p) (length w) (length q)
  then exists v, obj p w q = Ok v
  else obj p w q = Raise ValueError.
Proof.
  unfold obj_shapes_agree, obj. cbv zeta.
  set (pbar := complement p). set (qbar := complement q).
  assert (Lg : forall v, length (log_floor v) = length v)
    by (intros; apply length_map).
  assert (Lpb : length pbar = length p) by apply length_map.
  assert (Lqb : length qbar = length q) by apply length_map.
  pose proof (broadcast_spec sub (log_floor p) (log_floor q)) as B1.
  rewrite !Lg in B1.
  destruct (broadcast_length (length p) (length q)) as [m|] eqn:Em;
    [|rewrite B1; reflexivity].
  destruct B1 as [dp [-> Ldp]]. simpl.
  pose proof (broadcast_spec mul p dp) as B2.
  rewrite Ldp, (broadcast_length_absorb _ _ Em) in B2.
  destruct B2 as [hp [-> Lhp]]. simpl.
  pose proof (broadcast_spec sub (log_floor pbar) (log_floor qbar)) as B3.
  rewrite !Lg, Lpb, Lqb, Em in B3.
  destruct B3 as [dpbar [-> Ldpbar]]. simpl.
  pose proof (broadcast_spec mul pbar dpbar) as B4.
  rewrite Lpb, Ldpbar, (broadcast_length_absorb _ _ Em) in B4.
  destruct B4 as [hpbar [-> Lhpbar]]. simpl.
  pose proof (broadcast_spec add hp hpbar) as B5.
  rewrite Lhp, Lhpbar in B5. unfold broadcast_length in B5.
  rewrite Nat.eqb_refl in B5.
  destruct B5 as [Hm [-> LH]]. simpl.
  pose proof (dot_spec Hm w) as D. rewrite LH in D.
  destruct (m =? length w).
  - destruct D as [v ->]. simpl. eauto.
  - rewrite D. reflexivity.
Qed.

Lemma obj_equal_lengths (p w q : list T) (f : nat) :
  length p = f -> length w = f -> length q = f -> exists v, obj p w q = Ok v.
Proof.
  intros Hp Hw Hq. pose proof (obj_shapes p w q) as Hs.
  unfold obj_shapes_agree, broadcast_length in Hs.
  rewrite Hp, Hw, Hq, !Nat.eqb_refl in Hs. exact Hs.
Qed.

End ObjShapes.

Lemma omapM_nth {A B} (f : A -> outcome B) (l : list A) (bs : list B)
  (da : A) (db : B) :
  omapM f l = Ok bs ->
  length bs = length l
  /\ forall j, j < length l -> f (nth j l da) = Ok (nth j bs db).
Proof.
  revert bs; induction l as [|a l IH]; intros bs Hm; simpl in Hm.
  - injection Hm as <-. split; [reflexivity|]. simpl. intros j Hj. lia.
  - destruct (f a) as [b| |] eqn:Ea; try discriminate. simpl in Hm.
    destruct (omapM f l) as [bs'| |]; try discriminate. simpl in Hm.
    injection Hm as <-. destruct (IH bs' eq_refl) as [Hl Hn].
    split; [simpl; congruence|].
    intros [|j] Hj; simpl in *; [exact Ea|apply Hn; lia].
Qed.

(** ** [argmax] *)

Section Argmax.
Context {T : Type} `{ArithLaws T}.

Lemma leb_refl (x : T) : is_nan x = false -> leb x x = true.
Proof.
  intros Hx. destruct (leb x x) eqn:E; auto.
  pose proof (leb_total x x Hx Hx E). congruence.
Qed.

Lemma leb_number_l (x y : T) : leb x y = true -> is_nan x = false.
Proof.
  intros Hl. destruct (is_nan x) eqn:E; auto.
  rewrite leb_nan_l in Hl by exact E. discriminate.
Qed.

Lemma leb_number_r (x y : T) : leb x y = true -> is_nan y = false.
Proof.
  intros Hl. destruct (is_nan y) eqn:E; auto.
  rewrite leb_nan_r in Hl by exact E. discriminate.
Qed.

Lemma ltb_trans (x y z : T) :
  ltb x y = true -> ltb y z = true -> ltb x z = true.
Proof.
  rewrite !ltb_leb, !andb_true_iff, !negb_true_iff.
  intros [Hxy Hyx] [Hyz Hzy]. split; [eapply leb_trans; eauto|].
  destruct (leb z x) eqn:E; auto.
  rewrite (leb_trans _ _ _ E Hxy) in Hzy. discriminate.
Qed.

(** The scan keeps, at [ind], the first greatest entry of the part of
    the array it has read, which holds no [nan]. *)
Lemma argmax_from_first_best (l pre : list T) (mp : T) (ind : nat) :
  ind < length pre ->
  nth ind pre zero = mp ->
  (forall j, j < length pre -> leb (nth j pre zero) mp = true) ->
  (forall j, j < ind -> leb mp (nth j pre zero) = false) ->
  first_best (pre ++ l) (argmax_from l (length pre) mp ind).
Proof.
  revert pre mp ind; induction l as [|x l IH]; intros pre mp ind Hi Hmp Hmax Hfst.
  - simpl. rewrite app_nil_r. split; [exact Hi|]. rewrite Hmp. split.
    + intros j Hj. split; [|now apply Hfst].
      eapply leb_number_l, Hmax. lia.
    + right. exact Hmax.
  - simpl.
    assert (Hpre : forall j, j < length pre ->
                             nth j ((pre ++ [x]) ++ l) zero = nth j pre zero).
    { intros j Hj. rewrite <- app_assoc, app_nth1; auto. }
    assert (Hx : nth (length pre) ((pre ++ [x]) ++ l) zero = x).
    { rewrite <- app_assoc, app_nth2, Nat.sub_diag by lia. reflexivity. }
    assert (Hshape : pre ++ x :: l = (pre ++ [x]) ++ l)
      by (rewrite <- app_assoc; reflexivity).
    assert (Hlen : length (pre ++ [x]) = S (length pre))
      by (rewrite length_app; simpl; lia).
    assert (Hnth : forall j, j < length pre ->
                             nth j (pre ++ [x]) zero = nth j pre zero)
      by (intros j Hj; now rewrite app_nth1).
    assert (Hlast : nth (length pre) (pre ++ [x]) zero = x)
      by (rewrite app_nth2, Nat.sub_diag by lia; reflexivity).
    destruct (leb x mp) eqn:Hle.
    + rewrite Hshape, <- Hlen. apply IH.
      * lia.
      * rewrite Hnth by exact Hi. exact Hmp.
      * intros j Hj. rewrite Hlen in Hj.
        destruct (Nat.eq_dec j (length pre)) as [->|Hne].
        -- rewrite Hlast. exact Hle.
        -- rewrite Hnth by lia. apply Hmax. lia.
      * intros j Hj. rewrite Hnth by lia. now apply Hfst.
    + destruct (is_nan x) eqn:Hnan.
      * rewrite Hshape. split; [rewrite length_app, Hlen; lia|]. rewrite Hx.
        split; [|now left].
        intros j Hj. rewrite Hpre by exact Hj. split.
        -- eapply leb_number_l, Hmax, Hj.
        -- now apply leb_nan_l.
      * assert (Hmpn : is_nan mp = false)
          by (eapply leb_number_r, (Hmax ind Hi)).
        assert (Hge : leb mp x = true) by now apply leb_total.
        rewrite Hshape, <- Hlen. apply IH.
        -- rewrite Hlen. lia.
        -- exact Hlast.
        -- intros j Hj. rewrite Hlen in Hj.
           destruct (Nat.eq_dec j (length pre)) as [->|Hne].
           ++ rewrite Hlast. now apply leb_refl.
           ++ rewrite Hnth by lia. eapply leb_trans; [apply Hmax; lia|exact Hge].
        -- intros j Hj. rewrite Hnth by exact Hj.
           destruct (leb x (nth j pre zero)) eqn:E; auto.
           rewrite (leb_trans _ _ _ E (Hmax j Hj)) in Hle. discriminate.
Qed.

Lemma argmax_first_best (d : list T) :
  d <> [] -> exists e, argmax d = Ok e /\ first_best d e.
Proof.
  destruct d as [|x l]; [congruence|]. intros _. simpl.
  destruct (is_nan x) eqn:Hx.
  - exists 0. split; [reflexivity|]. split; [simpl; lia|].
    split; [intros j Hj; lia|]. left. exact Hx.
  - eexists. split; [reflexivity|].
    apply (argmax_from_first_best l [x] (mp:=x) (ind:=0)).
    + simpl. lia.
    + reflexivity.
    + intros [|j] Hj; simpl in *; [now apply leb_refl|lia].
    + intros j Hj. lia.
Qed.

(** No entry is greater than the one at [argmax], and a [nan] anywhere
    puts a [nan] there. *)
Lemma first_best_greatest (d : list T) (e j : nat) :
  first_best d e -> j < length d ->
  ltb (nth e d zero) (nth j d zero) = false
  /\ (is_nan (nth j d zero) = true -> is_nan (nth e d zero) = true).
Proof.
  intros [He [_ [Hn|Hmax]]] Hj.
  - split; auto. rewrite ltb_leb, leb_nan_l by exact Hn. reflexivity.
  - split.
    + rewrite ltb_leb, (Hmax j Hj). simpl. apply andb_false_r.
    + intros Hjn. pose proof (Hmax j Hj) as Hle.
      rewrite leb_nan_l in Hle by exact Hjn. discriminate.
Qed.

End Argmax.

(** ** One pass of the greedy loop *)

Lemma select_length {A} (y : mask) (l : list A) :
  length y = length l -> length (select y l) = count y.
Proof.
  unfold select. rewrite length_map.
  revert l; induction y as [|b y IH]; intros [|a l] E; simpl in *;
    try discriminate; auto.
  rewrite count_cons. destruct b; simpl; rewrite IH by lia; reflexivity.
Qed.

Section KnockOut.
Context {T : Type} `{Arith T}.

Lemma knock_out_length (y : mask) (delta : list T) :
  length y = length delta -> length (knock_out y delta) = length y.
Proof.
  intros Hl. unfold knock_out. rewrite length_map, length_combine. lia.
Qed.

Lemma knock_out_nth (y : mask) (delta : list T) (e : nat) :
  length y = length delta -> e < length y ->
  nth e (knock_out y delta) zero =
  if nth e y false then neg_inf else nth e delta zero.
Proof.
  revert delta e; induction y as [|b y IH]; intros [|d delta] e Hl He;
    simpl in *; try lia; try discriminate.
  destruct e as [|e]; [reflexivity|]. apply IH; lia.
Qed.

(** [live] names a row. *)
Lemma live_row (y : mask) (delta : list T) :
  length y = length delta -> live y delta = true ->
  exists j, j < length y /\ nth j y false = false
            /\ above_neg_inf (nth j delta zero) = true.
Proof.
  unfold live.
  revert delta; induction y as [|b y IH]; intros [|d delta] Hl Hlive;
    simpl in *; try discriminate.
  apply orb_true_iff in Hlive. destruct Hlive as [Hd|Hrest].
  - apply andb_true_iff in Hd. destruct Hd as [Hb Hd].
    exists 0. split; [lia|]. split; [now apply negb_true_iff|exact Hd].
  - destruct (IH delta) as [j [Hj [Hy Ha]]]; [lia|exact Hrest|].
    exists (S j). split; [lia|]. split; assumption.
Qed.

Lemma row_live (y : mask) (delta : list T) (j : nat) :
  length y = length delta -> j < length y -> nth j y false = false ->
  above_neg_inf (nth j delta zero) = true -> live y delta = true.
Proof.
  unfold live.
  revert delta j; induction y as [|b y IH]; intros [|d delta] j Hl Hj Hy Ha;
    simpl in *; try lia; try discriminate.
  apply orb_true_iff. destruct j as [|j].
  - left. subst b. simpl. exact Ha.
  - right. apply (IH delta j); auto; lia.
Qed.

End KnockOut.

Section Pass.
Context {T : Type} `{Arith T}.

Variable X : matrix.
Variables w q : list T.
Hypothesis Hwf : wf_matrix X = true.
Hypothesis Hw : length w = n_attributes X.
Hypothesis Hq : length q = n_attributes X.

Lemma nanmean_length (y : mask) : length (nanmean X y) = n_attributes X.
Proof. unfold nanmean. rewrite length_map. apply length_seq. Qed.

Lemma p_new_rows (p : list T) (i : nat) :
  length p = n_attributes X ->
  length (p_new X p i) = n_participants X
  /\ Forall (fun r => length r = n_attributes X) (p_new X p i).
Proof.
  intros Hp. unfold p_new. split; [apply length_map|].
  apply Forall_map, Forall_forall. intros row Hrow.
  unfold wf_matrix in Hwf. rewrite forallb_forall in Hwf.
  specialize (Hwf row Hrow). apply Nat.eqb_eq in Hwf.
  rewrite length_map, length_combine; lia.
Qed.

(** The rows of [p_new] are the candidate means. *)
Lemma p_new_nth (y : mask) (e : nat) :
  nth e (p_new X (nanmean X y) (count y)) [] = candidate X y e.
Proof.
  unfold p_new, candidate.
  set (F := fun row : list bool =>
              map (fun px : T * bool =>
                     div (add (mul (fst px) (of_int (count y)))
                              (of_bool (snd px)))
                         (add (of_int (count y)) one))
                  (combine (nanmean X y) row)).
  assert (HF : F [] = []) by (unfold F; now rewrite combine_nil).
  change (nth e (map F (rows X)) [] = F (nth e (rows X) [])).
  rewrite <- (map_nth F (rows X) [] e), HF. reflexivity.
Qed.

(** The gains are computed whatever the mask, one per row. *)
Lemma gains_returns (y : mask) :
  exists delta, gains X w q y = Ok delta /\ length delta = n_participants X.
Proof.
  unfold gains. cbv zeta.
  set (p := nanmean X y).
  assert (Lp : length p = n_attributes X) by apply nanmean_length.
  destruct (p_new_rows p (count y) Lp) as [Ln Hrows].
  destruct (omapM_ok (fun row => obj row w q) (fun _ => True)
                     (p_new X p (count y))) as [g [Hg [Lg _]]].
  { intros row Hrow. rewrite Forall_forall in Hrows.
    destruct (obj_equal_lengths row w q (Hrows row Hrow) Hw Hq) as [v ->].
    eauto. }
  unfold obj_rows. rewrite Hg. simpl.
  destruct (obj_equal_lengths p w q Lp Hw Hq) as [b ->]. simpl.
  eexists; split; [reflexivity|]. rewrite length_map. congruence.
Qed.

End Pass.

Section PassRows.
Context {T : Type} `{Arith T}.

(** The gain computed for row [j] is its marginal gain. *)
Lemma gains_rows (X : matrix) (w q : list T) (y : mask) (delta : list T) :
  gains X w q y = Ok delta ->
  length delta = n_participants X
  /\ forall j, j < n_participants X ->
               marginal_gain X w q y j = Ok (nth j delta zero).
Proof.
  unfold gains, obj_rows. cbv zeta. intros Hg.
  destruct (omapM (fun row => obj row w q)
                  (p_new X (nanmean X y) (count y))) as [g| |] eqn:Eg;
    try discriminate. simpl in Hg.
  destruct (obj (nanmean X y) w q) as [base| |] eqn:Eb; try discriminate.
  simpl in Hg. injection Hg as <-.
  destruct (omapM_nth (fun row => obj row w q) _ [] zero Eg) as [Lg Hn].
  assert (Ln : length (p_new X (nanmean X y) (count y)) = n_participants X)
    by (unfold p_new; apply length_map).
  rewrite Ln in *. split; [rewrite length_map; exact Lg|].
  intros j Hj. unfold marginal_gain.
  rewrite <- p_new_nth, (Hn j Hj). simpl. rewrite Eb. simpl.
  f_equal.
  rewrite (nth_indep (map (fun ge => sub ge base) g) zero (sub zero base))
    by (rewrite length_map; lia).
  symmetry. apply (map_nth (fun ge => sub ge base)).
Qed.

(** What a pass that returns has done. *)
Lemma body_inv (X : matrix) (w q : list T) (y y' : mask) :
  body X w q y = Ok y' ->
  exists delta e, gains X w q y = Ok delta
                  /\ argmax (knock_out y delta) = Ok e
                  /\ y' = set_at y e.
Proof.
  unfold body. intros Hb.
  destruct (gains X w q y) as [delta| |] eqn:Eg; try discriminate.
  simpl in Hb.
  destruct (argmax (knock_out y delta)) as [e| |] eqn:Ea; try discriminate.
  simpl in Hb. injection Hb as <-. exists delta, e. auto.
Qed.

Lemma argmax_in_range (d : list T) :
  d <> [] -> exists e, argmax d = Ok e /\ e < length d.
Proof.
  destruct d as [|x l]; [congruence|]. intros _. simpl.
  destruct (is_nan x); [exists 0; split; [reflexivity|simpl; lia]|].
  eexists. split; [reflexivity|].
  assert (Hscan : forall (l : list T) pos mp ind,
             ind < pos -> argmax_from l pos mp ind < pos + length l).
  { clear. induction l as [|x l IH]; intros pos mp ind Hi; simpl; [lia|].
    destruct (leb x mp).
    - specialize (IH (S pos) mp ind). lia.
    - destruct (is_nan x); [lia|]. specialize (IH (S pos) x pos). lia. }
  specialize (Hscan l 1 x 0). simpl. lia.
Qed.

(** A pass returns a mask with one entry set, whatever the gains. *)
Lemma body_returns (X : matrix) (w q : list T) (y : mask) :
  wf_matrix X = true ->
  length w = n_attributes X -> length q = n_attributes X ->
  length y = n_participants X -> 0 < n_participants X ->
  exists e, body X w q y = Ok (set_at y e) /\ e < n_participants X.
Proof.
  intros Hwf Hw Hq Hy Hn. unfold body.
  destruct (@gains_returns _ _ X w q Hwf Hw Hq y) as [delta [-> Ld]]. simpl.
  destruct (argmax_in_range (d:=knock_out y delta)) as [e [-> He]].
  { intros E. apply (f_equal (@length _)) in E.
    rewrite knock_out_length in E by congruence. simpl in E. lia. }
  simpl. exists e. split; [reflexivity|].
  rewrite knock_out_length in He by congruence. lia.
Qed.

End PassRows.

Section LivePass.
Context {T : Type} `{ArithLaws T}.

(** With a live gain, [argmax] over the knocked-out gains is a row that
    is not selected. *)
Lemma argmax_knock_out_free (y : mask) (delta : list T) (e : nat) :
  length y = length delta -> live y delta = true ->
  first_best (knock_out y delta) e ->
  nth e y false = false.
Proof.
  intros Hl Hlive Hbest.
  destruct (live_row y delta Hl Hlive) as [j [Hj [Hy Ha]]].
  destruct (nth e y false) eqn:Ee; auto. exfalso.
  pose proof Hbest as [He _]. rewrite knock_out_length in He by exact Hl.
  assert (Hjk : j < length (knock_out y delta))
    by (rewrite knock_out_length; auto).
  destruct (first_best_greatest Hbest Hjk) as [Hgt Hnan].
  rewrite !knock_out_nth, Ee, Hy in * by auto.
  unfold above_neg_inf in Ha. apply orb_true_iff in Ha.
  destruct Ha as [Ha|Ha]; [|congruence].
  rewrite neg_inf_number in Hnan. specialize (Hnan Ha). discriminate.
Qed.

(** With a live gain a pass adds a row that was not selected. *)
Lemma body_adds_free_row (X : matrix) (w q : list T) (y : mask) :
  wf_matrix X = true ->
  length w = n_attributes X -> length q = n_attributes X ->
  gains_live X w q ->
  length y = n_participants X -> count y < n_participants X ->
  exists e, body X w q y = Ok (set_at y e)
            /\ e < n_participants X /\ nth e y false = false.
Proof.
  intros Hwf Hw Hq Hlive Hy Hc. unfold body.
  destruct (@gains_returns _ _ X w q Hwf Hw Hq y) as [delta [Hg Ld]].
  rewrite Hg. simpl.
  destruct (argmax_first_best (d:=knock_out y delta)) as [e [-> Hbest]].
  { intros E. apply (f_equal (@length _)) in E.
    rewrite knock_out_length in E by congruence. simpl in E. lia. }
  simpl. exists e. split; [reflexivity|].
  pose proof Hbest as [He _]. rewrite knock_out_length in He by congruence.
  split; [lia|].
  apply (argmax_knock_out_free y delta); [congruence| |exact Hbest].
  now apply Hlive.
Qed.

End LivePass.

(** ** One run of the greedy loop *)

Lemma count_set_at_bounds (y : mask) (e : nat) :
  count y <= count (set_at y e) <= S (count y).
Proof.
  revert e; induction y as [|b y IH]; intros [|e]; simpl; try lia.
  - rewrite !count_cons. destruct b; lia.
  - rewrite !count_cons. specialize (IH e). lia.
Qed.

Lemma set_at_keeps (y : mask) (e j : nat) :
  nth j y false = true -> nth j (set_at y e) false = true.
Proof.
  intros Hj. rewrite set_at_nth, Hj. now destruct (_ && _).
Qed.

Lemma advance_0_0 (s : world) : advance s 0 0 = s.
Proof. destruct s; unfold advance; simpl. now rewrite !Nat.add_0_r. Qed.

Lemma advance_advance (s : world) (a b a' b' : nat) :
  advance (advance s a b) a' b' = advance s (a + a') (b + b').
Proof. unfold advance; simpl. f_equal; lia. Qed.

Section Run.
Context {T : Type} `{Arith T}.

Variable X : matrix.
Variable k : Z.
Variables w q : list T.

Lemma loop_S (fuel : nat) (y : mask) :
  loop X k w q (S fuel) y
  = (if (k <=? Z.of_nat (count y))%Z then ret y
     else tick ;;; y' <- pure (body X w q y) ;; loop X k w q fuel y').
Proof. reflexivity. Qed.

(** A pass sets one entry of the mask. *)
Lemma iteration_sets_a_row (y y' : mask) :
  iteration X k w q y y' ->
  (Z.of_nat (count y) < k)%Z /\ exists e, y' = set_at y e.
Proof.
  intros Hit. inversion Hit as [y1 y2 Hlt Hbody]; subst y1 y2.
  split; [exact Hlt|].
  destruct (body_inv _ _ _ _ Hbody) as [delta [e [_ [_ ->]]]]. eauto.
Qed.

Lemma visited_trans (y0 y1 y2 : mask) :
  visited X k w q y0 y1 -> visited X k w q y1 y2 -> visited X k w q y0 y2.
Proof.
  intros H01 H12. induction H12; auto. eapply visited_pass; eauto.
Qed.

(** Along a run the mask keeps its length and its selected rows, and the
    number of selected rows never goes down, nor above [k] when the run
    starts with at most [k] rows. *)
Lemma visited_size (y0 y : mask) :
  visited X k w q y0 y ->
  length y = length y0
  /\ count y0 <= count y
  /\ ((Z.of_nat (count y0) <= k)%Z -> (Z.of_nat (count y) <= k)%Z)
  /\ (forall j, nth j y0 false = true -> nth j y false = true).
Proof.
  intros Hv. induction Hv as [|y y' Hv IH Hit]; [repeat split; auto|].
  destruct IH as [IHl [IHc [IHk IHr]]].
  destruct (iteration_sets_a_row Hit) as [Hlt [e ->]].
  pose proof (count_set_at_bounds y e) as Hb.
  rewrite set_at_length. repeat split; auto; try lia.
  intros j Hj. apply set_at_keeps, IHr, Hj.
Qed.

(** What the loop returns, when it returns: a mask the run has passed
    through, with [k] selected rows or more; the mask it was given, in
    the world it was given, when that mask has [k] rows or more. *)
Lemma loop_result (fuel : nat) (y yf : mask) (s s' : world) :
  loop X k w q fuel y s = (Ok yf, s') ->
  visited X k w q y yf
  /\ (k <= Z.of_nat (count yf))%Z
  /\ ((k <= Z.of_nat (count y))%Z -> yf = y /\ s' = s).
Proof.
  revert y s; induction fuel as [|fuel IH]; intros y s Hl; [discriminate|].
  rewrite loop_S in Hl.
  destruct (Z.leb_spec k (Z.of_nat (count y))) as [Hge|Hlt].
  - injection Hl as <- <-. repeat split; auto. constructor.
  - unfold bind at 1, tick in Hl. unfold bind at 1, pure in Hl.
    destruct (body X w q y) as [y'|e|] eqn:Hb; try discriminate.
    destruct (IH _ _ Hl) as [Hv [Hk _]].
    split; [|split; [exact Hk|lia]].
    eapply visited_trans; [|exact Hv].
    eapply visited_pass; [constructor|]. now constructor.
Qed.

(** The loop reads nothing of the world and writes only the count of its
    passes. *)
Lemma loop_world (fuel : nat) (y : mask) :
  exists o passes, forall s, loop X k w q fuel y s = (o, advance s 0 passes).
Proof.
  revert y; induction fuel as [|fuel IH]; intros y; simpl.
  - exists OutOfFuel, 0. intros s. unfold pure, advance.
    destruct s; simpl. now rewrite !Nat.add_0_r.
  - destruct (k <=? Z.of_nat (count y))%Z.
    + exists (Ok y), 0. intros s. unfold ret, advance.
      destruct s; simpl. now rewrite !Nat.add_0_r.
    + destruct (body X w q y) as [y'|e|] eqn:Hb.
      * destruct (IH y') as [o [passes Hl]]. exists o, (S passes). intros s.
        unfold bind, tick, pure. rewrite Hl. unfold advance. simpl.
        do 2 f_equal. lia.
      * exists (Raise e), 1. intros s. unfold bind, tick, pure, advance. simpl.
        do 2 f_equal; lia.
      * exists OutOfFuel, 1. intros s. unfold bind, tick, pure, advance. simpl.
        do 2 f_equal; lia.
Qed.

(** More fuel does not change what the loop returns. *)
Lemma loop_more_fuel (fuel : nat) (y yf : mask) (s s' : world) :
  fst (loop X k w q fuel y s) = Ok yf ->
  fst (loop X k w q (S fuel) y s') = Ok yf.
Proof.
  revert y s s'; induction fuel as [|fuel IH]; intros y s s' Hl;
    [discriminate|].
  rewrite loop_S in Hl. rewrite (loop_S (S fuel)).
  destruct (k <=? Z.of_nat (count y))%Z; [exact Hl|].
  unfold bind, tick, pure in *.
  destruct (body X w q y) as [y'|e|]; try discriminate.
  eapply IH. exact Hl.
Qed.

(** A run to a target [k] is the beginning of the run to any greater
    target from the same seed. *)
Lemma visited_prefix (k' : Z) (y0 y yf : mask) :
  (k <= k')%Z ->
  visited X k w q y0 y ->
  visited X k' w q y0 yf -> (k' <= Z.of_nat (count yf))%Z ->
  visited X k' w q y yf.
Proof.
  intros Hkk Hv Hvf Hfin. induction Hv as [|y y1 Hv IH Hit]; [exact Hvf|].
  inversion Hit as [? ? Hlt Hbody]; subst.
  assert (Hvh : y = yf \/ exists y2, iteration X k' w q y y2
                                     /\ visited X k' w q y2 yf).
  { clear - IH. induction IH as [|ym yf' Hv' IH' Hit']; [now left|right].
    destruct IH' as [->|[y2 [Hit2 Hv2]]].
    - exists yf'. split; [exact Hit'|constructor].
    - exists y2. split; [exact Hit2|]. eapply visited_pass; eauto. }
  destruct Hvh as [->|[y2 [Hit2 Hv2]]]; [lia|].
  inversion Hit2 as [? ? _ Hbody2]; subst.
  assert (y1 = y2) by congruence. now subst.
Qed.

Hypothesis Hwf : wf_matrix X = true.
Hypothesis Hw : length w = n_attributes X.
Hypothesis Hq : length q = n_attributes X.

(** The loop raises nothing. *)
Lemma loop_never_raises (fuel : nat) (y : mask) (s : world) (e : exn) :
  length y = n_participants X -> 0 < n_participants X ->
  fst (loop X k w q fuel y s) <> Raise e.
Proof.
  revert y s; induction fuel as [|fuel IH]; intros y s Hy Hn;
    [discriminate|].
  rewrite loop_S. destruct (k <=? Z.of_nat (count y))%Z; [discriminate|].
  unfold bind at 1, tick. unfold bind at 1, pure.
  destruct (body_returns X w q y Hwf Hw Hq Hy Hn) as [e' [-> _]].
  apply IH; [now rewrite set_at_length|exact Hn].
Qed.

End Run.

Section LiveRun.
Context {T : Type} `{ArithLaws T}.

Variable X : matrix.
Variable k : Z.
Variables w q : list T.
Hypothesis Hwf : wf_matrix X = true.
Hypothesis Hw : length w = n_attributes X.
Hypothesis Hq : length q = n_attributes X.
Hypothesis Hk : (k <= Z.of_nat (n_participants X))%Z.
Hypothesis Hlive : gains_live X w q.

(** With live gains the loop returns, within [n + 1] exit tests.  It
    returns the mask it was given when that has [k] rows or more, and
    otherwise a mask of exactly [k] rows, after one pass per row added;
    the passes are counted in the world. *)
Lemma loop_returns (fuel : nat) (y : mask) (s : world) :
  length y = n_participants X -> n_participants X - count y < fuel ->
  exists yf,
    loop X k w q fuel y s = (Ok yf, advance s 0 (count yf - count y))
    /\ visited X k w q y yf
    /\ ((k <= Z.of_nat (count y))%Z -> yf = y)
    /\ ((Z.of_nat (count y) < k)%Z -> Z.of_nat (count yf) = k).
Proof.
  revert y s; induction fuel as [|fuel IH]; intros y s Hy Hfuel; [lia|].
  rewrite loop_S. destruct (Z.leb_spec k (Z.of_nat (count y))) as [Hge|Hlt].
  - exists y. rewrite Nat.sub_diag, advance_0_0.
    repeat split; auto; [constructor|lia].
  - destruct (@body_adds_free_row _ _ _ X w q y Hwf Hw Hq Hlive Hy)
      as [e [He [Hb Hn]]]; [lia|].
    assert (Hc : count (set_at y e) = S (count y))
      by (rewrite count_set_at, Hn by lia; reflexivity).
    unfold bind at 1, tick. unfold bind at 1, pure. rewrite He.
    destruct (IH (set_at y e) (mkWorld (entropy s) (drawn s) (S (iters s))))
      as [yf [Hrun [Hv [Hsame Hgrow]]]].
    { now rewrite set_at_length. }
    { pose proof (count_le_length y). lia. }
    assert (Hit : iteration X k w q y (set_at y e)) by (constructor; auto).
    exists yf. rewrite Hrun.
    assert (Hmono : count (set_at y e) <= count yf).
    { destruct (Z.leb_spec k (Z.of_nat (count (set_at y e)))) as [G|L].
      - rewrite (Hsame G). lia.
      - specialize (Hgrow L). lia. }
    repeat split.
    + unfold advance. simpl. do 2 f_equal. lia.
    + eapply visited_trans; [|exact Hv]. eapply visited_pass; [constructor|exact Hit].
    + lia.
    + intros _. destruct (Z.leb_spec k (Z.of_nat (count (set_at y e)))) as [G|L].
      * rewrite (Hsame G). lia.
      * auto.
Qed.

End LiveRun.

(** ** The selector *)

Section Selector.
Context {T : Type} `{Arith T}.

Lemma valid_data_arrays (X : matrix) (w q : option (list T)) :
  valid_data X w q = true ->
  wf_matrix X = true
  /\ length (weights X w) = n_attributes X
  /\ length (targets X q) = n_attributes X.
Proof.
  unfold valid_data, valid_weights, valid_targets.
  rewrite !Bool.andb_true_iff, !Nat.eqb_eq.
  intros [[Hwf [_ Hw]] [_ Hq]]. auto.
Qed.

(** On valid data and [0 < k <= n] the five asserts pass. *)
Lemma _entrofy_asserts_pass (X : matrix) (k : Z) (w q : option (list T))
  (pre_selects : option (list nat)) (s : world) :
  valid_data X w q = true -> (0 < k <= Z.of_nat (n_participants X))%Z ->
  _entrofy X k w q pre_selects s =
  (if (k =? Z.of_nat (n_participants X))%Z
   then ret (Bare (seq 0 (n_participants X)))
   else
     ps <- match pre_selects with
           | None => random_choice (n_participants X)
           | Some ps => ret ps
           end ;;
     y <- pure (seed_mask X ps) ;;
     y <- loop X k (weights X w) (targets X q) (S (n_participants X)) y ;;
     score <- pure (obj (nanmean X y) (weights X w) (targets X q)) ;;
     ret (Pair score (flatnonzero y))) s.
Proof.
  unfold valid_data, valid_weights, valid_targets.
  rewrite !Bool.andb_true_iff. intros [[Hwf [Hw1 Hw2]] [[Hq1 Hq2] Hq3]] [Hk1 Hk2].
  unfold _entrofy. cbv zeta.
  apply Z.ltb_lt in Hk1. apply Z.leb_le in Hk2.
  rewrite Hk1, Hk2, Hw1, Hq1, Hq2, Hw2, Hq3. reflexivity.
Qed.

(** When one of them fails, [_entrofy] raises at once. *)
Lemma _entrofy_assert_fails (X : matrix) (k : Z) (w q : option (list T))
  (pre_selects : option (list nat)) (s : world) :
  asserts_hold X k w q = false ->
  _entrofy X k w q pre_selects s = (Raise AssertionError, s).
Proof.
  unfold asserts_hold, _entrofy. cbv zeta. intros Hf.
  destruct ((0 <? k)%Z && (k <=? Z.of_nat (n_participants X))%Z); [|reflexivity].
  destruct (negb (existsb (fun x => ltb x zero) (weights X w)));
    [|reflexivity].
  destruct (forallb (fun x => leb zero x) (targets X q)
            && forallb (fun x => leb x one) (targets X q)); [|reflexivity].
  destruct (length (weights X w) =? n_attributes X); [|reflexivity].
  destruct (length (targets X q) =? n_attributes X); [|reflexivity].
  discriminate.
Qed.

Lemma asserts_hold_valid (X : matrix) (k : Z) (w q : option (list T)) :
  wf_matrix X = true -> asserts_hold X k w q = true ->
  valid_data X w q = true /\ (0 < k <= Z.of_nat (n_participants X))%Z.
Proof.
  unfold asserts_hold, valid_data, valid_weights, valid_targets.
  intros ->. rewrite !Bool.andb_true_iff, Z.ltb_lt, Z.leb_le. tauto.
Qed.

(** The [k == n] path: the bare index array, no draw, no pass. *)
Lemma _entrofy_full_panel (X : matrix) (k : Z) (w q : option (list T))
  (pre_selects : option (list nat)) (s : world) :
  valid_data X w q = true -> 0 < n_participants X ->
  k = Z.of_nat (n_participants X) ->
  _entrofy X k w q pre_selects s = (Ok (Bare (seq 0 (n_participants X))), s).
Proof.
  intros Hv Hn ->. rewrite _entrofy_asserts_pass by (auto; lia).
  rewrite Z.eqb_refl. reflexivity.
Qed.

(** Past the asserts, with rows given: what is left of [_entrofy]. *)
Lemma _entrofy_preselected (X : matrix) (k : Z) (w q : option (list T))
  (ps : list nat) (s : world) :
  asserts_hold X k w q = true ->
  _entrofy X k w q (Some ps) s =
  (if (k =? Z.of_nat (n_participants X))%Z
   then ret (Bare (seq 0 (n_participants X)))
   else
     y <- pure (seed_mask X ps) ;;
     y <- loop X k (weights X w) (targets X q) (S (n_participants X)) y ;;
     score <- pure (obj (nanmean X y) (weights X w) (targets X q)) ;;
     ret (Pair score (flatnonzero y))) s.
Proof.
  unfold asserts_hold, _entrofy. cbv zeta. intros Ha.
  rewrite !Bool.andb_true_iff in Ha.
  destruct Ha as [[[[[Hk1 Hk2] Hw1] [Hq1 Hq2]] Hw2] Hq3].
  rewrite Hk1, Hk2, Hw1, Hq1, Hq2, Hw2, Hq3.
  destruct (k =? Z.of_nat (n_participants X))%Z; reflexivity.
Qed.

(** With rows given, [_entrofy] reads nothing of the world and writes only
    the count of the passes. *)
Lemma _entrofy_preselected_world (X : matrix) (k : Z) (w q : option (list T))
  (ps : list nat) :
  exists o passes, forall s,
    _entrofy X k w q (Some ps) s = (o, advance s 0 passes).
Proof.
  destruct (asserts_hold X k w q) eqn:Ha.
  - destruct (k =? Z.of_nat (n_participants X))%Z eqn:Ek.
    + exists (Ok (Bare (seq 0 (n_participants X)))), 0. intros s.
      rewrite _entrofy_preselected, Ek, advance_0_0 by assumption. reflexivity.
    + destruct (seed_mask X ps) as [y0|e|] eqn:Es.
      * destruct (loop_world X k (weights X w) (targets X q)
                    (S (n_participants X)) y0) as [o [passes Hl]].
        destruct o as [yf|e|].
        -- exists (obind (obj (nanmean X yf) (weights X w) (targets X q))
                     (fun sc => Ok (Pair sc (flatnonzero yf)))), passes.
           intros s. rewrite _entrofy_preselected, Ek by assumption.
           unfold bind at 1, pure at 1. rewrite Es.
           unfold bind at 1. rewrite Hl. unfold bind, pure, ret.
           destruct (obj (nanmean X yf) _ _); reflexivity.
        -- exists (Raise e), passes. intros s.
           rewrite _entrofy_preselected, Ek by assumption.
           unfold bind at 1, pure at 1. rewrite Es.
           unfold bind at 1. rewrite Hl. reflexivity.
        -- exists OutOfFuel, passes. intros s.
           rewrite _entrofy_preselected, Ek by assumption.
           unfold bind at 1, pure at 1. rewrite Es.
           unfold bind at 1. rewrite Hl. reflexivity.
      * exists (Raise e), 0. intros s.
        rewrite _entrofy_preselected, Ek, advance_0_0 by assumption.
        unfold bind, pure. rewrite Es. reflexivity.
      * exists OutOfFuel, 0. intros s.
        rewrite _entrofy_preselected, Ek, advance_0_0 by assumption.
        unfold bind, pure. rewrite Es. reflexivity.
  - exists (Raise AssertionError), 0. intros s.
    rewrite _entrofy_assert_fails, advance_0_0 by assumption. reflexivity.
Qed.

Variable X : matrix.
Variable k : Z.
Variables w q : option (list T).
Hypothesis Hv : valid_data X w q = true.
Hypothesis Hk : (0 < k < Z.of_nat (n_participants X))%Z.

Lemma seed_rows_drawn_ids (s : world) : row_ids X (seed_rows X None s) = true.
Proof.
  unfold row_ids, seed_rows. simpl. rewrite Bool.andb_true_r.
  apply Nat.ltb_lt, Nat.mod_upper_bound. lia.
Qed.

(** The greedy path: the seed rows are the rows given or the row drawn,
    and the rest runs after the draw. *)
Lemma _entrofy_seeded (pre_selects : option (list nat)) (s : world) :
  _entrofy X k w q pre_selects s =
  (y <- pure (seed_mask X (seed_rows X pre_selects s)) ;;
   y <- loop X k (weights X w) (targets X q) (S (n_participants X)) y ;;
   score <- pure (obj (nanmean X y) (weights X w) (targets X q)) ;;
   ret (Pair score (flatnonzero y))) (advance s (draws_of pre_selects) 0).
Proof.
  rewrite _entrofy_asserts_pass by (auto; lia).
  destruct (Z.eqb_spec k (Z.of_nat (n_participants X))) as [E|_]; [lia|].
  destruct pre_selects as [ps|]; simpl.
  - rewrite advance_0_0. reflexivity.
  - unfold bind at 1, random_choice.
    destruct (n_participants X) as [|m] eqn:En; [lia|].
    replace (mkWorld (entropy s) (S (drawn s)) (iters s)) with (advance s 1 0)
      by (unfold advance; f_equal; lia).
    reflexivity.
Qed.

(** What [_entrofy] returns on the greedy path, when it returns: the
    index array of the last mask of a run from its seed rows, with the
    score of that mask. *)
Lemma _entrofy_result (pre_selects : option (list nat)) (s s' : world)
  (r : selection T) :
  _entrofy X k w q pre_selects s = (Ok r, s') ->
  exists y0 yf x,
    run_from X k w q (seed_rows X pre_selects s) y0 yf x
    /\ r = Pair x (flatnonzero yf).
Proof.
  rewrite _entrofy_seeded. intros Hrun.
  unfold bind at 1, pure at 1 in Hrun.
  destruct (seed_mask X (seed_rows X pre_selects s)) as [y0|e|] eqn:Es;
    try discriminate.
  unfold bind at 1 in Hrun.
  destruct (loop X k (weights X w) (targets X q) (S (n_participants X)) y0
              (advance s (draws_of pre_selects) 0)) as [[yf|e|] s1] eqn:El;
    try discriminate.
  unfold bind, pure, ret in Hrun.
  destruct (obj (nanmean X yf) (weights X w) (targets X q)) as [x|e|] eqn:Eo;
    try discriminate.
  injection Hrun as <- <-.
  destruct (@loop_result _ _ _ _ _ _ _ _ _ _ _ El) as [Hvis [Hge Hsame]].
  destruct (@visited_size _ _ _ _ _ _ _ _ Hvis) as [Hlen [Hmono [Hle _]]].
  pose proof (@seed_mask_row_ids _ _ _ Es) as Hids.
  pose proof (seed_mask_length X _ Hids Es) as Hl0.
  exists y0, yf, x. split; [|reflexivity].
  unfold run_from. repeat split; auto; try congruence.
  - intros Hc. now apply Hsame.
  - intros Hc. assert (Z.of_nat (count yf) <= k)%Z by (apply Hle; lia). lia.
Qed.

(** From a seed of [k] rows or more the call returns that seed, after
    the draw if there is one, without a pass. *)
Lemma _entrofy_at_target (pre_selects : option (list nat)) (s : world)
  (y0 : mask) :
  seed_mask X (seed_rows X pre_selects s) = Ok y0 ->
  (k <= Z.of_nat (count y0))%Z ->
  exists x,
    run_from X k w q (seed_rows X pre_selects s) y0 y0 x
    /\ _entrofy X k w q pre_selects s
       = (Ok (Pair x (flatnonzero y0)), advance s (draws_of pre_selects) 0).
Proof.
  intros Es Hc.
  destruct (valid_data_arrays X w q Hv) as [Hwf [Hw Hq]].
  destruct (obj_equal_lengths (nanmean X y0) (weights X w) (targets X q)
              (nanmean_length X y0) Hw Hq) as [x Hx].
  assert (Hrun : _entrofy X k w q pre_selects s
                 = (Ok (Pair x (flatnonzero y0)),
                    advance s (draws_of pre_selects) 0)).
  { rewrite _entrofy_seeded. unfold bind at 1, pure at 1. rewrite Es.
    unfold bind at 1. rewrite loop_S.
    destruct (Z.leb_spec k (Z.of_nat (count y0))) as [_|L]; [|lia].
    unfold ret at 1. unfold bind, pure, ret. rewrite Hx. reflexivity. }
  exists x. split; [|exact Hrun].
  destruct (_entrofy_result _ _ Hrun) as [y0' [yf [x' [Hrf Hr]]]].
  pose proof Hrf as [Es' [_ [_ [_ [Hsame _]]]]].
  rewrite Es in Es'. injection Es' as <-.
  rewrite (Hsame Hc) in Hrf. injection Hr as -> _. exact Hrf.
Qed.

(** Past the asserts and with seed rows in bounds, [_entrofy] raises
    nothing. *)
Lemma _entrofy_raises_nothing (pre_selects : option (list nat)) (s : world)
  (e : exn) :
  row_ids X (seed_rows X pre_selects s) = true ->
  fst (_entrofy X k w q pre_selects s) <> Raise e.
Proof.
  intros Hids. destruct (valid_data_arrays X w q Hv) as [Hwf [Hw Hq]].
  rewrite _entrofy_seeded. unfold bind at 1, pure at 1.
  rewrite (seed_mask_ok X _ Hids).
  set (y0 := fold_left set_at _ _).
  assert (Hy0 : length y0 = n_participants X)
    by (unfold y0; rewrite fold_set_at_length; apply repeat_length).
  unfold bind at 1.
  pose proof (fun e0 =>
                @loop_never_raises _ _ X k _ _ Hwf Hw Hq (S (n_participants X))
                  y0 (advance s (draws_of pre_selects) 0) e0 Hy0) as Hnr.
  destruct (loop X k (weights X w) (targets X q) (S (n_participants X)) y0
              (advance s (draws_of pre_selects) 0)) as [[yf|e'|] s1] eqn:El;
    simpl in *.
  - unfold bind, pure, ret.
    destruct (obj_equal_lengths (nanmean X yf) (weights X w) (targets X q)
                (nanmean_length X yf) Hw Hq) as [x ->]. discriminate.
  - intros _. apply (Hnr e'); [lia|reflexivity].
  - discriminate.
Qed.

End Selector.

Section LiveSelector.
Context {T : Type} `{ArithLaws T}.

Variable X : matrix.
Variable k : Z.
Variables w q : option (list T).
Hypothesis Hv : valid_data X w q = true.
Hypothesis Hk : (0 < k < Z.of_nat (n_participants X))%Z.

(** With live gains, or a seed of [k] rows or more, [_entrofy] returns on
    the greedy path: the result of the run from its seed rows, after one
    draw when no rows are given and one pass per row added. *)
Lemma _entrofy_returns (pre_selects : option (list nat)) (s : world) :
  row_ids X (seed_rows X pre_selects s) = true ->
  ((Z.of_nat (seed_size pre_selects) < k)%Z ->
   gains_live X (weights X w) (targets X q)) ->
  exists y0 yf x,
    run_from X k w q (seed_rows X pre_selects s) y0 yf x
    /\ _entrofy X k w q pre_selects s
       = (Ok (Pair x (flatnonzero yf)),
          advance s (draws_of pre_selects) (count yf - count y0)).
Proof.
  intros Hids Hlive.
  destruct (valid_data_arrays X w q Hv) as [Hwf [Hw Hq]].
  pose proof (seed_mask_ok X _ Hids) as Es.
  set (y0 := fold_left set_at _ _) in Es.
  pose proof (seed_mask_length X _ Hids Es) as Hy0.
  pose proof (seed_mask_count X _ Hids Es) as Hc0.
  assert (Hsz : count y0 = seed_size pre_selects).
  { rewrite Hc0. destruct pre_selects; reflexivity. }
  destruct (Z.leb_spec k (Z.of_nat (count y0))) as [Hge|Hlt].
  - destruct (@_entrofy_at_target _ _ X k w q Hv Hk pre_selects s y0 Es Hge)
      as [x [Hrf Hrun]].
    exists y0, y0, x. rewrite Nat.sub_diag. auto.
  - assert (Hkn : (k <= Z.of_nat (n_participants X))%Z) by lia.
    destruct (@loop_returns _ _ _ X k _ _ Hwf Hw Hq Hkn (Hlive ltac:(lia))
                (S (n_participants X)) y0
                (advance s (draws_of pre_selects) 0) Hy0)
      as [yf [Hloop _]]; [lia|].
    destruct (obj_equal_lengths (nanmean X yf) (weights X w) (targets X q)
                (nanmean_length X yf) Hw Hq) as [x Hx].
    assert (Hrun : _entrofy X k w q pre_selects s
                   = (Ok (Pair x (flatnonzero yf)),
                      advance s (draws_of pre_selects) (count yf - count y0))).
    { rewrite _entrofy_seeded by assumption.
      unfold bind at 1, pure at 1. rewrite Es.
      unfold bind at 1. rewrite Hloop.
      unfold bind, pure, ret. rewrite Hx, advance_advance.
      rewrite Nat.add_0_r. reflexivity. }
    destruct (@_entrofy_result _ _ X k w q Hv Hk _ _ _ _ Hrun)
      as [y0' [yf' [x' [Hrf Hr]]]].
    pose proof Hrf as [Es' _].
    rewrite Es in Es'. injection Es' as <-.
    injection Hr as -> Hfl.
    assert (yf' = yf).
    { destruct Hrf as [_ [_ [Hl' _]]].
      assert (Hl : length yf = n_participants X).
      { destruct (@loop_result _ _ _ _ _ _ _ _ _ _ _ Hloop) as [Hvis _].
        destruct (@visited_size _ _ _ _ _ _ _ _ Hvis) as [Hlen _]. congruence. }
      pose proof (seed_mask_of_flatnonzero X yf Hl) as R1.
      pose proof (seed_mask_of_flatnonzero X yf' Hl') as R2.
      rewrite Hfl in R1. congruence. }
    subst yf'. exists y0, yf, x'. auto.
Qed.

End LiveSelector.

(** ** The entry point *)

Lemma mapM_all_return {A B} (f : M B) (Q : B -> Prop) (l : list A) :
  (forall s, exists r s', f s = (Ok r, s') /\ Q r) ->
  forall s, exists rs s',
    mapM (fun _ => f) l s = (Ok rs, s') /\ length rs = length l /\ Forall Q rs.
Proof.
  intros Hf. induction l as [|a l IH]; intros s; simpl.
  - exists [], s. repeat split; auto.
  - destruct (Hf s) as [r [s1 [Hr Hq]]].
    destruct (IH s1) as [rs [s2 [Hrs [Hl Hall]]]].
    exists (r :: rs), s2. unfold bind at 1. rewrite Hr.
    unfold bind, ret. rewrite Hrs. simpl. auto.
Qed.

Lemma mapM_first_raises {A B} (f : M B) (a : A) (l : list A) (e : exn)
  (s s' : world) :
  f s = (Raise e, s') -> mapM (fun _ => f) (a :: l) s = (Raise e, s').
Proof.
  intros Hf. simpl. unfold bind at 1. rewrite Hf. reflexivity.
Qed.

Lemma mapM_same_result {A B} (f : M B) (r : B) (l : list A) :
  (forall s, f s = (Ok r, s)) ->
  forall s, mapM (fun _ => f) l s = (Ok (repeat r (length l)), s).
Proof.
  intros Hf. induction l as [|a l IH]; intros s; simpl; [reflexivity|].
  unfold bind at 1. rewrite Hf. unfold bind, ret. rewrite IH. reflexivity.
Qed.

(** Trials that each return, draw [d] times and make [c] passes: the
    [t]-th starts [t * d] draws and [t * c] passes into the call. *)
Lemma mapM_trials {A B} (f : M B) (d c : nat) (Q : world -> B -> Prop) :
  (forall s, exists r, f s = (Ok r, advance s d c) /\ Q s r) ->
  forall (l : list A) (s : world),
  exists rs,
    mapM (fun _ => f) l s = (Ok rs, advance s (length l * d) (length l * c))
    /\ length rs = length l
    /\ forall t r0, t < length l -> Q (advance s (t * d) (t * c)) (nth t rs r0).
Proof.
  intros Hf. induction l as [|a l IH]; intros s.
  - exists []. simpl. rewrite advance_0_0. repeat split; auto. intros; lia.
  - destruct (Hf s) as [r [Hr Hq]].
    destruct (IH (advance s d c)) as [rs [Hrs [Hl Hall]]].
    exists (r :: rs). simpl. unfold bind at 1. rewrite Hr.
    unfold bind, ret. rewrite Hrs, advance_advance. repeat split; auto.
    intros [|t] r0 Ht; simpl.
    + rewrite advance_0_0. exact Hq.
    + specialize (Hall t r0 (proj2 (Nat.succ_lt_mono _ _) Ht)).
      rewrite advance_advance in Hall. exact Hall.
Qed.

Lemma Forall_of_nth {B} (R : nat -> B -> Prop) (rs : list B) (n : nat) :
  length rs = n ->
  (forall t r0, t < n -> R t (nth t rs r0)) ->
  Forall (fun r => exists t, t < n /\ R t r) rs.
Proof.
  intros Hl Hall. apply Forall_forall. intros r Hin.
  destruct (In_nth rs r r Hin) as [t [Ht Hr]].
  exists t. split; [lia|]. rewrite <- Hr. apply Hall. lia.
Qed.

Lemma mapM_app_ok {A B} (f : A -> M B) (l1 l2 : list A) (rs1 rs2 : list B)
  (s s1 s2 : world) :
  mapM f l1 s = (Ok rs1, s1) ->
  mapM f l2 s1 = (Ok rs2, s2) ->
  mapM f (l1 ++ l2) s = (Ok (rs1 ++ rs2), s2).
Proof.
  revert rs1 s; induction l1 as [|a l1 IH]; intros rs1 s H1 H2; simpl in *.
  - unfold ret in H1. injection H1 as <- <-. exact H2.
  - unfold bind in *. destruct (f a s) as [[b|e|] sa]; try discriminate.
    destruct (mapM f l1 sa) as [[bs|e|] sb] eqn:E1; try discriminate.
    unfold ret in H1. injection H1 as <- <-.
    rewrite (IH bs sa E1 H2). reflexivity.
Qed.

(** What the trials returned, when all of them returned. *)
Lemma mapM_results {A B} (f : M B) (P : B -> Prop) (l : list A) :
  (forall s r s', f s = (Ok r, s') -> P r) ->
  forall s rs s', mapM (fun _ => f) l s = (Ok rs, s') ->
                  length rs = length l /\ Forall P rs.
Proof.
  intros Hf. induction l as [|a l IH]; intros s rs s' Hm; simpl in Hm.
  - injection Hm as <- _. auto.
  - unfold bind at 1 in Hm. destruct (f s) as [[r|e|] s1] eqn:Er; try discriminate.
    unfold bind at 1 in Hm.
    destruct (mapM (fun _ => f) l s1) as [[rs1|e|] s2] eqn:Em; try discriminate.
    injection Hm as <- _. destruct (IH _ _ _ Em) as [Hl Hall].
    split; [simpl; congruence|]. constructor; eauto.
Qed.

Section EntryPoint.
Context {T : Type} `{Arith T}.

Lemma best_of_pairs (rest : list (selection T)) (P : T -> list nat -> Prop)
  (sc : T) (idx : list nat) :
  Forall (fun r => exists sc idx, r = Pair sc idx /\ P sc idx) rest ->
  P sc idx ->
  exists sc' idx',
    best_of rest (SFloat sc) (VArr idx) = Ok (SFloat sc', VArr idx')
    /\ P sc' idx'.
Proof.
  intros Hall; revert sc idx.
  induction Hall as [|r rest [sc1 [idx1 [-> Hr]]] Hall IH]; intros sc idx Hp; simpl.
  - eauto.
  - change (exists sc' idx',
              (if scalar_gt (SFloat sc1) (SFloat sc)
               then best_of rest (SFloat sc1) (VArr idx1)
               else best_of rest (SFloat sc) (VArr idx))
              = Ok (SFloat sc', VArr idx') /\ P sc' idx').
    destruct (scalar_gt (SFloat sc1) (SFloat sc)); apply IH; assumption.
Qed.

(** Of results that are all tuples, [reduce] returns one. *)
Lemma reduce_pairs (rs : list (selection T)) (P : T -> list nat -> Prop) :
  rs <> [] ->
  Forall (fun r => exists sc idx, r = Pair sc idx /\ P sc idx) rs ->
  exists sc idx, reduce rs = Ok (SFloat sc, VArr idx) /\ P sc idx.
Proof.
  intros Hne Hall. destruct Hall as [|r rest [sc [idx [-> Hr]]] Hall]; [congruence|].
  simpl. apply best_of_pairs; auto.
Qed.

Lemma best_of_app (l1 l2 : list (selection T)) (m : scalar T) (b : solution) :
  best_of (l1 ++ l2) m b
  = obind (best_of l1 m b) (fun mb => best_of l2 (fst mb) (snd mb)).
Proof.
  revert m b; induction l1 as [|r l1 IH]; intros m b; simpl; [reflexivity|].
  destruct (unpack r) as [ss| |]; simpl; auto.
  destruct (scalar_gt (fst ss) m); apply IH.
Qed.

(** With one trial, [entrofy] is [_entrofy] followed by the unpacking. *)
Lemma entrofy_one_trial (X : matrix) (k : Z) (w q : option (list T))
  (pre_selects : option (list nat)) (n_samples : nat) (s : world) :
  trials pre_selects n_samples = 1 ->
  entrofy X k w q pre_selects n_samples s
  = bind (_entrofy X k w q pre_selects) (fun r => pure (unpack r)) s.
Proof.
  intros Ht. unfold entrofy. cbv zeta. rewrite Ht. simpl.
  unfold bind, ret, pure.
  destruct (_entrofy X k w q pre_selects s) as [[r|e|] s']; auto.
  simpl. destruct (unpack r) as [[a b]|e|]; reflexivity.
Qed.

Lemma best_of_bare_pair (m a b : nat) :
  best_of (T:=T) (repeat (Bare [a; b]) m) (SInt a) (VInt b) = Ok (SInt a, VInt b).
Proof.
  induction m as [|m IH]; simpl; auto.
  rewrite Nat.ltb_irrefl. exact IH.
Qed.

(** With [k == n], every trial returns the bare array [np.arange(n)],
    which [entrofy] unpacks as if it were a tuple: into two integers when
    [n = 2], into a [ValueError] otherwise. *)
Lemma entrofy_full_panel (X : matrix) (k : Z) (w q : option (list T))
  (pre_selects : option (list nat)) (n_samples : nat) (s : world) :
  valid_data X w q = true -> 0 < n_participants X ->
  k = Z.of_nat (n_participants X) ->
  1 <= trials pre_selects n_samples ->
  entrofy X k w q pre_selects n_samples s
  = (if n_participants X =? 2 then Ok (SInt 0, VInt 1) else Raise ValueError, s).
Proof.
  intros Hv Hn Hk Ht. unfold entrofy. cbv zeta. unfold bind.
  rewrite (@mapM_same_result nat _ (_entrofy X k w q pre_selects)
             (Bare (seq 0 (n_participants X))))
    by (intros; now apply _entrofy_full_panel).
  rewrite length_seq. unfold pure.
  destruct (trials pre_selects n_samples) as [|m]; [lia|].
  simpl. destruct (n_participants X) as [|[|[|n]]]; simpl; try reflexivity.
  now rewrite best_of_bare_pair.
Qed.

Variable X : matrix.
Variable k : Z.
Variables w q : option (list T).
Variable pre_selects : option (list nat).
Hypothesis Hv : valid_data X w q = true.
Hypothesis Hk : (0 < k < Z.of_nat (n_participants X))%Z.

(** What [entrofy] returns on the greedy path, when it returns: the
    result of the run of one of its trials. *)
Lemma entrofy_result (n_samples : nat) (s s' : world) (sc : scalar T)
  (sol : solution) :
  entrofy X k w q pre_selects n_samples s = (Ok (sc, sol), s') ->
  exists st y0 yf x,
    run_from X k w q (seed_rows X pre_selects st) y0 yf x
    /\ sc = SFloat x /\ sol = VArr (flatnonzero yf).
Proof.
  unfold entrofy. cbv zeta. intros He. unfold bind in He.
  destruct (mapM (fun _ => _entrofy X k w q pre_selects)
              (seq 0 (trials pre_selects n_samples)) s) as [[rs|e|] s1] eqn:Em;
    try discriminate.
  unfold pure in He. injection He as Hred _.
  set (P := fun (x : T) (idx : list nat) =>
              exists st y0 yf, run_from X k w q (seed_rows X pre_selects st) y0 yf x
                               /\ idx = flatnonzero yf).
  destruct (mapM_results (_entrofy X k w q pre_selects)
              (fun r => exists x idx, r = Pair x idx /\ P x idx)
              (seq 0 (trials pre_selects n_samples))) with (s := s) (rs := rs)
              (s' := s1) as [_ Hall]; auto.
  { intros st r st' Hr.
    destruct (@_entrofy_result _ _ X k w q Hv Hk _ _ _ _ Hr)
      as [y0 [yf [x [Hrf ->]]]].
    exists x, (flatnonzero yf). split; [reflexivity|]. exists st, y0, yf. auto. }
  destruct (reduce_pairs (rs:=rs) P) as [x [idx [Hred' [st [y0 [yf [Hrf ->]]]]]]];
    auto.
  { intros ->. discriminate. }
  rewrite Hred' in Hred. injection Hred as <- <-.
  exists st, y0, yf, x. auto.
Qed.

End EntryPoint.

Section LiveEntryPoint.
Context {T : Type} `{ArithLaws T}.

Variable X : matrix.
Variable k : Z.
Variables w q : option (list T).
Variable pre_selects : option (list nat).
Hypothesis Hv : valid_data X w q = true.
Hypothesis Hk : (0 < k < Z.of_nat (n_participants X))%Z.
Hypothesis Hpre : forall ps, pre_selects = Some ps -> row_ids X ps = true.
Hypothesis Hlive : (Z.of_nat (seed_size pre_selects) < k)%Z ->
                   gains_live X (weights X w) (targets X q).

Lemma seed_rows_ids (s : world) : row_ids X (seed_rows X pre_selects s) = true.
Proof.
  destruct pre_selects as [ps|] eqn:E; [now apply Hpre|].
  apply seed_rows_drawn_ids with (k := k). exact Hk.
Qed.

(** With live gains, or a seed of [k] rows or more, [entrofy] returns on
    the greedy path: for some trial [t], the index array of the last mask
    of the run from the seed rows of that trial, with the score of that
    mask; every trial has drawn once when no rows are given and made one
    pass per row added. *)
Lemma entrofy_returns_a_run (n_samples : nat) (s : world) :
  1 <= trials pre_selects n_samples ->
  exists t y0 yf x,
    t < trials pre_selects n_samples
    /\ run_from X k w q
         (seed_rows X pre_selects
            (advance s (t * draws_of pre_selects)
                       (t * (Z.to_nat k - seed_size pre_selects))))
         y0 yf x
    /\ entrofy X k w q pre_selects n_samples s
       = (Ok (SFloat x, VArr (flatnonzero yf)),
          advance s (trials pre_selects n_samples * draws_of pre_selects)
                    (trials pre_selects n_samples
                     * (Z.to_nat k - seed_size pre_selects))).
Proof.
  intros Hn. unfold entrofy. cbv zeta.
  set (N := trials pre_selects n_samples) in *.
  set (Q := fun (s0 : world) (r : selection T) =>
              exists y0 yf x,
                run_from X k w q (seed_rows X pre_selects s0) y0 yf x
                /\ r = Pair x (flatnonzero yf)).
  destruct (@mapM_trials nat _ (_entrofy X k w q pre_selects)
              (draws_of pre_selects) (Z.to_nat k - seed_size pre_selects) Q)
    with (l := seq 0 N) (s := s) as [rs [Hrs [Hl Hall]]].
  { intros s0.
    destruct (@_entrofy_returns _ _ _ X k w q Hv Hk pre_selects s0
                (seed_rows_ids s0) Hlive) as [y0 [yf [x [Hrf Hrun]]]].
    exists (Pair x (flatnonzero yf)). split.
    - rewrite Hrun. do 2 f_equal.
      destruct Hrf as [Es [_ [_ [_ [Hsame [Hgrow _]]]]]].
      pose proof (seed_mask_count X _ (seed_rows_ids s0) Es) as Hc0.
      assert (Hsz : count y0 = seed_size pre_selects).
      { rewrite Hc0. destruct pre_selects; reflexivity. }
      destruct (Z.leb_spec k (Z.of_nat (count y0))) as [Hge|Hlt].
      + rewrite (Hsame Hge). lia.
      + specialize (Hgrow Hlt). lia.
    - exists y0, yf, x. auto. }
  rewrite length_seq in Hl, Hrs, Hall.
  pose proof (Forall_of_nth
                (fun t r => Q (advance s (t * draws_of pre_selects)
                                 (t * (Z.to_nat k - seed_size pre_selects))) r)
                rs Hl Hall) as HF.
  destruct (reduce_pairs (rs:=rs)
              (fun x idx => exists t, t < N
                 /\ Q (advance s (t * draws_of pre_selects)
                         (t * (Z.to_nat k - seed_size pre_selects)))
                      (Pair x idx)))
    as [sc [idx [Hred [t [Ht [y0 [yf [x [Hrf Hx]]]]]]]]].
  { intros ->. simpl in Hl. lia. }
  { eapply Forall_impl; [|exact HF]. intros r [t [Ht HQ]].
    pose proof HQ as [? [yf [x [_ ->]]]]. exists x, (flatnonzero yf).
    split; [reflexivity|]. eauto. }
  injection Hx as -> ->.
  exists t, y0, yf, x. split; [exact Ht|]. split; [exact Hrf|].
  unfold bind. rewrite Hrs. unfold pure. rewrite Hred. reflexivity.
Qed.

End LiveEntryPoint.

(** * The claims *)

(** ** The [k == n] path through [entrofy] *)

(** C1, at a failing input. With three participants and [k = 3],
    [_entrofy] returns the bare array of all three indices, without a draw
    or a pass through the loop, and [entrofy] raises [ValueError] when it
    unpacks that array into a score and a solution: no pair is returned. *)
Theorem entrofy_full_panel_returns_no_pair :
  _entrofy (T:=float) Sample.X3 3 None None None Sample.s0
  = (Ok (Bare [0; 1; 2]), Sample.s0)
  /\ entrofy (T:=float) Sample.X3 3 None None None 1 Sample.s0
     = (Raise ValueError, Sample.s0).
Proof.
  split; reflexivity.
Qed.

(** C3, at a failing input. With three participants, [k = 3] and two
    trials, the trials return two bare arrays, which hold no score, and
    [entrofy] raises [ValueError]: no greatest score is returned. *)
Theorem entrofy_full_panel_returns_no_best_score :
  mapM (fun _ => _entrofy (T:=float) Sample.X3 3 None None None) (seq 0 2)
       Sample.s0
  = (Ok [Bare [0; 1; 2]; Bare [0; 1; 2]], Sample.s0)
  /\ entrofy (T:=float) Sample.X3 3 None None None 2 Sample.s0
     = (Raise ValueError, Sample.s0).
Proof.
  split; reflexivity.
Qed.

(** C9, at a failing input. With two participants, [k = 2] and row [0]
    pre-selected, [entrofy] returns the two entries of [np.arange(2)] as
    score and solution: the solution is the integer [1], and row [0] is not
    in it. *)
Theorem entrofy_full_panel_drops_pre_selects :
  entrofy (T:=float) Sample.X2 2 None None (Some [0]) 15 Sample.s0
  = (Ok (SInt 0, VInt 1), Sample.s0).
Proof.
  reflexivity.
Qed.

(** ** Gains that overflow *)

(** C2, at a failing input. Three participants with the one attribute
    [0, 1, 1], [k = 2], the weight [1e306], the target [0.] and row [0]
    pre-selected pass the asserts.  The pass of the loop leaves the mask as
    it was, so the exit test fails for ever: the loop uses up every budget
    of the model, and [entrofy] returns no index array. *)
Theorem overflowed_gains_stall_the_run :
  asserts_hold Sample.Xo 2 (Some Sample.w_huge) (Some Sample.q_zero) = true
  /\ seed_mask Sample.Xo [0] = Ok [true; false; false]
  /\ body Sample.Xo Sample.w_huge Sample.q_zero [true; false; false]
     = Ok [true; false; false]
  /\ (forall fuel s,
        fst (loop Sample.Xo 2 Sample.w_huge Sample.q_zero fuel
                  [true; false; false] s) = OutOfFuel)
  /\ fst (entrofy Sample.Xo 2 (Some Sample.w_huge) (Some Sample.q_zero)
                  (Some [0]) 1 Sample.s0) = OutOfFuel.
Proof.
  assert (Hb : body Sample.Xo Sample.w_huge Sample.q_zero [true; false; false]
               = Ok [true; false; false]) by (vm_compute; reflexivity).
  split; [reflexivity|]. split; [reflexivity|]. split; [exact Hb|].
  split; [|vm_compute; reflexivity].
  induction fuel as [|fuel IH]; intros s; [reflexivity|].
  rewrite loop_S. change (2 <=? Z.of_nat (count [true; false; false]))%Z
    with false. cbv iota.
  unfold bind at 1, tick. unfold bind at 1, pure. rewrite Hb. apply IH.
Qed.

(** C5, at a failing input. On the same input the gains of rows [1] and
    [2] overflow to [-inf], the gain of row [0] is overwritten with [-inf],
    and [np.argmax] returns [0]: the row the pass adds is row [0], which is
    selected already. *)
Theorem overflowed_gains_select_a_taken_row :
  gains Sample.Xo Sample.w_huge Sample.q_zero [true; false; false]
  = Ok [0; neg_infinity; neg_infinity]%float
  /\ knock_out [true; false; false] [0; neg_infinity; neg_infinity]%float
     = [neg_infinity; neg_infinity; neg_infinity]
  /\ argmax [neg_infinity; neg_infinity; neg_infinity] = Ok 0
  /\ nth 0 [true; false; false] false = true
  /\ iteration Sample.Xo 2 Sample.w_huge Sample.q_zero
               [true; false; false] (set_at [true; false; false] 0).
Proof.
  split; [vm_compute; reflexivity|]. split; [reflexivity|].
  split; [reflexivity|]. split; [reflexivity|].
  constructor; [simpl; lia|vm_compute; reflexivity].
Qed.

(** ** Validation *)

Section Validation.
Context {T : Type} `{ArithLaws T}.

Lemma existsb_Exists_true {A} (f : A -> bool) (l : list A) :
  Exists (fun x => f x = true) l -> existsb f l = true.
Proof.
  intros He. apply existsb_exists. apply Exists_exists in He.
  destruct He as [x [Hin Hx]]. eauto.
Qed.

(** An input of [violates] fails one of the five asserts. *)
Lemma violates_fails_assert (X : matrix) (k : Z) (w q : option (list T)) :
  violates X k w q -> asserts_hold X k w q = false.
Proof.
  unfold asserts_hold. intros [Hk|[Hk|[Hw|[Hq|[Hw|Hq]]]]].
  - assert ((0 <? k)%Z = false) as -> by (apply Z.ltb_ge; lia). reflexivity.
  - assert ((k <=? Z.of_nat (n_participants X))%Z = false) as ->
      by (apply Z.leb_gt; lia).
    now rewrite Bool.andb_false_r.
  - rewrite (existsb_Exists_true _ Hw). simpl.
    now rewrite Bool.andb_false_r.
  - assert (forallb (fun x => leb zero x) (targets X q)
            && forallb (fun x => leb x one) (targets X q) = false) as ->.
    { apply Exists_exists in Hq. destruct Hq as [x [Hin Hx]].
      destruct (forallb (fun x => leb zero x) (targets X q)) eqn:E0;
        [|reflexivity].
      destruct (forallb (fun x => leb x one) (targets X q)) eqn:E1;
        [|reflexivity].
      rewrite forallb_forall in E0, E1. specialize (E0 x Hin). specialize (E1 x Hin).
      rewrite !ltb_leb, E0, E1 in Hx. simpl in Hx.
      rewrite !Bool.andb_false_r in Hx. destruct Hx; discriminate. }
    now rewrite !Bool.andb_false_r.
  - apply Nat.eqb_neq in Hw. rewrite Hw. now rewrite !Bool.andb_false_r.
  - apply Nat.eqb_neq in Hq. rewrite Hq. now rewrite !Bool.andb_false_r.
Qed.

(** C6, amended. On an input that breaks a condition on [k], [w] or [q],
    [_entrofy] raises [AssertionError] and leaves the world as it was: no
    seed drawn, no pass made; so does [entrofy] when it runs at least one
    trial, and nothing else is returned.  The exception is the same
    whichever condition is broken. *)
Theorem invalid_input_raises_assertion_error
  (X : matrix) (k : Z) (w q : option (list T))
  (pre_selects : option (list nat)) (n_samples : nat) (s : world) :
  violates X k w q ->
  _entrofy X k w q pre_selects s = (Raise AssertionError, s)
  /\ (1 <= trials pre_selects n_samples ->
      entrofy X k w q pre_selects n_samples s = (Raise AssertionError, s)).
Proof.
  intros Hviol. apply violates_fails_assert in Hviol.
  pose proof (_entrofy_assert_fails X k w q pre_selects s Hviol) as Hsel.
  split; [exact Hsel|].
  intros Hn. unfold entrofy. cbv zeta.
  destruct (trials pre_selects n_samples) as [|m]; [lia|].
  change (seq 0 (S m)) with (0 :: seq 1 m). unfold bind at 1.
  rewrite (@mapM_first_raises _ _ (_entrofy X k w q pre_selects) 0 (seq 1 m)
             AssertionError s s Hsel).
  reflexivity.
Qed.

End Validation.

Lemma invalid_input_raises_assertion_error_witness :
  _entrofy (T:=float) Sample.X4 2 (Some [1; -1]%float) None None Sample.s0
  = (Raise AssertionError, Sample.s0)
  /\ (1 <= trials None 15 ->
      entrofy (T:=float) Sample.X4 2 (Some [1; -1]%float) None None 15 Sample.s0
      = (Raise AssertionError, Sample.s0)).
Proof.
  apply invalid_input_raises_assertion_error.
  right; right; left. simpl. right. left. reflexivity.
Defined.

(** C6 as stated fails: the violations do not raise distinct errors.  An
    out-of-range [k], a negative weight, a target of [1.5] and weights of
    the wrong length all raise the one [AssertionError]. *)
Lemma validation_errors_not_distinct :
  entrofy (T:=float) Sample.X4 0 None None None 15 Sample.s0
  = (Raise AssertionError, Sample.s0)
  /\ entrofy (T:=float) Sample.X4 5 None None None 15 Sample.s0
     = (Raise AssertionError, Sample.s0)
  /\ entrofy (T:=float) Sample.X4 2 (Some [1; -1]%float) None None 15 Sample.s0
     = (Raise AssertionError, Sample.s0)
  /\ entrofy (T:=float) Sample.X4 2 None (Some [1.5; 0.5]%float) None 15
             Sample.s0
     = (Raise AssertionError, Sample.s0)
  /\ entrofy (T:=float) Sample.X4 2 (Some [1; 1; 1]%float) None None 15
             Sample.s0
     = (Raise AssertionError, Sample.s0).
Proof.
  repeat split; reflexivity.
Qed.

(** ** Shape errors of [obj] *)

Lemma obj_shapes_agree_iff (p w q : nat) :
  obj_shapes_agree p w q = true <-> obj_lengths_accepted p w q.
Proof.
  unfold obj_shapes_agree, broadcast_length, obj_lengths_accepted.
  destruct (Nat.eqb_spec p q) as [Epq|Npq].
  - rewrite Nat.eqb_eq. split; [intros; left; lia|].
    intros [[_ ?]|[[? ?]|[? ?]]]; lia.
  - destruct (Nat.eqb_spec p 1) as [Ep|Np].
    + rewrite Nat.eqb_eq. split; [intros; right; left; lia|].
      intros [[? _]|[[_ ?]|[? _]]]; lia.
    + destruct (Nat.eqb_spec q 1) as [Eq|Nq].
      * rewrite Nat.eqb_eq. split; [intros; right; right; lia|].
        intros [[? _]|[[? _]|[_ ?]]]; lia.
      * split; [discriminate|]. intros [[? _]|[[? _]|[? _]]]; lia.
Qed.

(** C7, amended. [obj] is a function of its arguments only, and the
    lengths decide whether it raises: it returns a value when [p] and [q]
    have one length, or one of them has length one, and [w] has the length
    of the longer; it raises [ValueError] on every other triple of
    lengths. *)
Theorem obj_raises_on_rejected_lengths {T : Type} `{Arith T}
  (p w q : list T) (s : world) :
  (obj_lengths_accepted (length p) (length w) (length q) ->
   exists v, obj p w q = Ok v)
  /\ (~ obj_lengths_accepted (length p) (length w) (length q) ->
      obj p w q = Raise ValueError)
  /\ pure (obj p w q) s = (obj p w q, s).
Proof.
  pose proof (obj_shapes p w q) as Hs.
  pose proof (obj_shapes_agree_iff (length p) (length w) (length q)) as Hiff.
  destruct (obj_shapes_agree (length p) (length w) (length q)).
  - repeat split; auto. intros Hn. exfalso. apply Hn, Hiff. reflexivity.
  - repeat split; auto. intros Ha. apply Hiff in Ha. discriminate.
Qed.

Lemma obj_raises_on_rejected_lengths_witness :
  (obj_lengths_accepted 2 2 2 ->
   exists v, obj [0.5; 1]%float [1; 1]%float [0.5; 0.5]%float = Ok v)
  /\ (~ obj_lengths_accepted 2 2 2 ->
      obj [0.5; 1]%float [1; 1]%float [0.5; 0.5]%float = Raise ValueError)
  /\ pure (obj [0.5; 1]%float [1; 1]%float [0.5; 0.5]%float) Sample.s0
     = (obj [0.5; 1]%float [1; 1]%float [0.5; 0.5]%float, Sample.s0).
Proof.
  apply (obj_raises_on_rejected_lengths
           [0.5; 1]%float [1; 1]%float [0.5; 0.5]%float Sample.s0).
Defined.

(** C7 as stated fails: with [p] of length one against [w] and [q] of
    length two the lengths are not all equal, and [obj] returns a value
    ([p] is broadcast). *)
Lemma obj_accepts_p_of_length_one :
  length [0.5%float] <> length [1%float; 1%float]
  /\ obj [0.5]%float [1; 1]%float [0.5; 0.5]%float = Ok (-0)%float
  /\ obj [0.5]%float [1; 1]%float [0.5; 0.5]%float <> Raise ValueError.
Proof.
  split; [simpl; lia|]. split.
  - vm_compute. reflexivity.
  - vm_compute. discriminate.
Qed.

(** ** The size of the selection *)

(** C8, amended. In a run with [0 < k < n] whose seed holds at most [k]
    distinct rows, every mask the run passes through has between [0] and
    [k] true entries and a pass never lowers their number; whenever the
    loop returns, it returns a mask of the run with exactly [k] true
    entries; and it does return when the gains are live. *)
Theorem run_selection_size {T : Type} `{ArithLaws T}
  (X : matrix) (k : Z) (w q : option (list T)) (ps : list nat) (y0 : mask) :
  valid_data X w q = true ->
  (0 < k < Z.of_nat (n_participants X))%Z ->
  seed_mask X ps = Ok y0 ->
  (Z.of_nat (distinct ps) <= k)%Z ->
  (forall y, visited X k (weights X w) (targets X q) y0 y ->
             (0 <= Z.of_nat (count y) <= k)%Z
             /\ forall y', iteration X k (weights X w) (targets X q) y y' ->
                           count y <= count y')
  /\ (forall fuel s yf s',
        loop X k (weights X w) (targets X q) fuel y0 s = (Ok yf, s') ->
        visited X k (weights X w) (targets X q) y0 yf
        /\ Z.of_nat (count yf) = k)
  /\ (gains_live X (weights X w) (targets X q) ->
      forall s, exists yf s',
        loop X k (weights X w) (targets X q) (S (n_participants X)) y0 s
        = (Ok yf, s')).
Proof.
  intros Hv Hk Hseed Hle.
  destruct (valid_data_arrays X w q Hv) as [Hwf [Hw Hq]].
  pose proof (seed_mask_row_ids X ps Hseed) as Hids.
  pose proof (seed_mask_length X ps Hids Hseed) as Hy0.
  pose proof (seed_mask_count X ps Hids Hseed) as Hc0.
  assert (Hle0 : (Z.of_nat (count y0) <= k)%Z) by lia.
  split; [|split].
  - intros y Hvis.
    destruct (@visited_size _ _ _ _ _ _ _ _ Hvis) as [_ [_ [Hc _]]].
    split; [lia|]. intros y' Hit.
    destruct (@iteration_sets_a_row _ _ _ _ _ _ _ _ Hit) as [_ [e ->]].
    apply count_set_at_bounds.
  - intros fuel s yf s' Hl.
    destruct (@loop_result _ _ _ _ _ _ _ _ _ _ _ Hl) as [Hvis [Hge _]].
    split; [exact Hvis|].
    destruct (@visited_size _ _ _ _ _ _ _ _ Hvis) as [_ [_ [Hc _]]]. lia.
  - intros Hlive s.
    assert (Hkn : (k <= Z.of_nat (n_participants X))%Z) by lia.
    destruct (@loop_returns _ _ _ X k _ _ Hwf Hw Hq Hkn Hlive
                (S (n_participants X)) y0 s Hy0) as [yf [Hrun _]]; [lia|].
    eauto.
Qed.

Lemma run_selection_size_witness :
  (forall y, visited (T:=float) Sample.X4 2 (weights Sample.X4 None)
                     (targets Sample.X4 None) [false; true; false; false] y ->
             (0 <= Z.of_nat (count y) <= 2)%Z
             /\ forall y', iteration (T:=float) Sample.X4 2
                             (weights Sample.X4 None) (targets Sample.X4 None)
                             y y' ->
                           count y <= count y')
  /\ (forall fuel s yf s',
        loop (T:=float) Sample.X4 2 (weights Sample.X4 None)
             (targets Sample.X4 None) fuel [false; true; false; false] s
        = (Ok yf, s') ->
        visited (T:=float) Sample.X4 2 (weights Sample.X4 None)
                (targets Sample.X4 None) [false; true; false; false] yf
        /\ Z.of_nat (count yf) = 2%Z)
  /\ (gains_live (T:=float) Sample.X4 (weights Sample.X4 None)
                 (targets Sample.X4 None) ->
      forall s, exists yf s',
        loop (T:=float) Sample.X4 2 (weights Sample.X4 None)
             (targets Sample.X4 None) (S (n_participants Sample.X4))
             [false; true; false; false] s
        = (Ok yf, s')).
Proof.
  apply (@run_selection_size float _ _ Sample.X4 2%Z None None [1]).
  - reflexivity.
  - simpl. lia.
  - reflexivity.
  - simpl. lia.
Defined.

(** C8 as stated fails on a seed of more than [k] rows: with [k = 1] and
    rows [0] and [1] pre-selected out of four, the run starts and ends with
    two selected rows. *)
Lemma run_selection_size_oversized_seed :
  seed_mask Sample.X4 [0; 1] = Ok [true; true; false; false]
  /\ loop (T:=float) Sample.X4 1 (weights Sample.X4 None)
          (targets Sample.X4 None) (S (n_participants Sample.X4))
          [true; true; false; false] Sample.s0
     = (Ok [true; true; false; false], Sample.s0)
  /\ count [true; true; false; false] = 2
  /\ ~ (Z.of_nat (count [true; true; false; false]) <= 1)%Z
  /\ exists score,
       entrofy (T:=float) Sample.X4 1 None None (Some [0; 1]) 15 Sample.s0
       = (Ok (SFloat score, VArr [0; 1]), Sample.s0).
Proof.
  split; [reflexivity|]. split; [reflexivity|]. split; [reflexivity|]. split.
  - vm_compute. intros Hc. apply Hc. reflexivity.
  - eexists. vm_compute. reflexivity.
Qed.

(** ** Pre-selected rows in the result *)

(** C10. With [0 < k < n], valid data and more than [k] distinct row
    identifiers in [pre_selects], no assert fails: [entrofy] returns with
    the world as it was (no draw, no pass through the loop), and the index
    array returned holds exactly the pre-selected rows, more than [k] of
    them. *)
Theorem oversized_pre_selects_returned_as_given {T : Type} `{Arith T}
  (X : matrix) (k : Z) (w q : option (list T)) (ps : list nat)
  (n_samples : nat) (s : world) :
  valid_data X w q = true ->
  (0 < k < Z.of_nat (n_participants X))%Z ->
  row_ids X ps = true ->
  (k < Z.of_nat (distinct ps))%Z ->
  exists score idx,
    entrofy X k w q (Some ps) n_samples s = (Ok (SFloat score, VArr idx), s)
    /\ (forall e, In e idx <-> In e ps)
    /\ length idx = distinct ps
    /\ (k < Z.of_nat (length idx))%Z.
Proof.
  intros Hv Hk Hids Hmore.
  rewrite entrofy_one_trial by reflexivity.
  pose proof (seed_mask_ok X ps Hids) as Hseed.
  set (y0 := fold_left set_at ps _) in Hseed.
  pose proof (seed_mask_count X ps Hids Hseed) as Hc0.
  destruct (@_entrofy_at_target _ _ X k w q Hv Hk (Some ps) s y0 Hseed)
    as [x [_ Hrun]]; [lia|].
  exists x, (flatnonzero y0).
  unfold bind. rewrite Hrun. simpl. rewrite advance_0_0. unfold pure.
  destruct (flatnonzero_spec y0) as [Hlen _].
  repeat split.
  - apply (seed_mask_flatnonzero X ps Hids Hseed).
  - apply (seed_mask_flatnonzero X ps Hids Hseed).
  - congruence.
  - rewrite Hlen, Hc0. exact Hmore.
Qed.

Lemma oversized_pre_selects_returned_as_given_witness :
  exists score idx,
    entrofy (T:=float) Sample.X4 1 None None (Some [3; 1; 3]) 15 Sample.s0
    = (Ok (SFloat score, VArr idx), Sample.s0)
    /\ (forall e, In e idx <-> In e [3; 1; 3])
    /\ length idx = distinct [3; 1; 3]
    /\ (1 < Z.of_nat (length idx))%Z.
Proof.
  apply oversized_pre_selects_returned_as_given.
  - reflexivity.
  - simpl. lia.
  - reflexivity.
  - vm_compute. reflexivity.
Defined.

(** On the greedy path, whenever [entrofy] returns an index array, every
    pre-selected row is in it. *)
Lemma pre_selects_returned_on_greedy_path {T : Type} `{Arith T}
  (X : matrix) (k : Z) (w q : option (list T)) (ps : list nat)
  (n_samples : nat) (s s' : world) (sc : scalar T) (sol : solution) :
  valid_data X w q = true ->
  (0 < k < Z.of_nat (n_participants X))%Z ->
  entrofy X k w q (Some ps) n_samples s = (Ok (sc, sol), s') ->
  exists idx, sol = VArr idx /\ forall e, In e ps -> In e idx.
Proof.
  intros Hv Hk He.
  destruct (@entrofy_result _ _ X k w q (Some ps) Hv Hk _ _ _ _ _ He)
    as [st [y0 [yf [x [Hrf [_ ->]]]]]].
  exists (flatnonzero yf). split; [reflexivity|]. intros e Hin.
  destruct Hrf as [Hseed [Hvis [Hlen _]]]. simpl in Hseed.
  pose proof (seed_mask_row_ids X ps Hseed) as Hids.
  apply flatnonzero_In.
  assert (Hlt : e < n_participants X).
  { unfold row_ids in Hids. rewrite forallb_forall in Hids.
    now apply Nat.ltb_lt, Hids. }
  split; [lia|].
  destruct (@visited_size _ _ _ _ _ _ _ _ Hvis) as [_ [_ [_ Hkeep]]].
  apply Hkeep. now apply (seed_mask_nth X ps Hids Hseed).
Qed.

(** * Further properties of the code *)

(** ** Live gains, decided *)

Lemma masks_complete (n : nat) (y : mask) : length y = n -> In y (masks n).
Proof.
  revert y; induction n as [|n IH]; intros [|b y] Hl; simpl in *;
    try discriminate; auto.
  apply in_or_app. destruct b; [right|left]; apply in_map, IH; lia.
Qed.

Lemma gains_live_checked {T : Type} `{Arith T} (X : matrix) (w q : list T) :
  gains_live_on X w q (masks (n_participants X)) = true -> gains_live X w q.
Proof.
  unfold gains_live_on. rewrite forallb_forall.
  intros Hall y delta Hy Hc Hg.
  specialize (Hall y (masks_complete y Hy)). rewrite Hg in Hall.
  apply orb_true_iff in Hall. destruct Hall as [Hfull|Hl]; [|exact Hl].
  apply Nat.leb_le in Hfull. lia.
Qed.

(** ** Pre-selected rows *)

Section PreSelected.
Context {T : Type} `{Arith T}.

(** X1. [pre_selects] is read as a set: two lists with the same elements,
    in any order and with any repetitions, give the same call, whatever
    the other arguments and whatever [n_samples] is. *)
Theorem pre_selects_read_as_a_set (X : matrix) (k : Z) (w q : option (list T))
  (ps ps' : list nat) (n_samples n_samples' : nat) (s : world) :
  (forall e, In e ps <-> In e ps') ->
  entrofy X k w q (Some ps) n_samples s
  = entrofy X k w q (Some ps') n_samples' s.
Proof.
  intros Hsame. rewrite !entrofy_one_trial by reflexivity.
  assert (Hsel : _entrofy X k w q (Some ps) s = _entrofy X k w q (Some ps') s).
  { destruct (asserts_hold X k w q) eqn:Ha.
    - rewrite !_entrofy_preselected by assumption.
      now rewrite (seed_mask_same_elements X ps ps' Hsame).
    - now rewrite !_entrofy_assert_fails by assumption. }
  unfold bind. now rewrite Hsel.
Qed.

(** X2. With [pre_selects] given, [entrofy] is deterministic: it draws
    nothing from the random generator, and what it returns or raises does
    not depend on the state of the generator nor on [n_samples]. *)
Theorem pre_selects_make_entrofy_deterministic (X : matrix) (k : Z)
  (w q : option (list T)) (ps : list nat) (n_samples n_samples' : nat)
  (s s' : world) :
  fst (entrofy X k w q (Some ps) n_samples s)
  = fst (entrofy X k w q (Some ps) n_samples' s')
  /\ entropy (snd (entrofy X k w q (Some ps) n_samples s)) = entropy s
  /\ drawn (snd (entrofy X k w q (Some ps) n_samples s)) = drawn s.
Proof.
  rewrite !entrofy_one_trial by reflexivity.
  destruct (_entrofy_preselected_world X k w q ps) as [o [passes Hw]].
  unfold bind. rewrite !Hw.
  destruct o as [r|e|]; simpl; unfold pure; simpl; auto using Nat.add_0_r.
Qed.

End PreSelected.

Lemma pre_selects_read_as_a_set_witness :
  entrofy (T:=float) Sample.X4 2 None None (Some [3; 1; 3]) 15 Sample.s0
  = entrofy (T:=float) Sample.X4 2 None None (Some [1; 3]) 1 Sample.s0.
Proof.
  apply pre_selects_read_as_a_set.
  intros e. simpl. tauto.
Defined.

(** ** Exceptions of the selector *)

(** X3. On a rectangular matrix, the arguments decide what [_entrofy]
    raises: [AssertionError], untouched world, when an assert fails;
    [IndexError], untouched world, when the asserts hold, [k < n] and a
    pre-selected row number is out of bounds; and nothing in every other
    case, where it returns when the gains are live.  With [k == n] it
    never looks at [pre_selects]. *)
Theorem _entrofy_outcome_by_verdict {T : Type} `{ArithLaws T}
  (X : matrix) (k : Z) (w q : option (list T))
  (pre_selects : option (list nat)) (s : world) :
  wf_matrix X = true ->
  match verdict_of X k w q pre_selects with
  | Rejects => _entrofy X k w q pre_selects s = (Raise AssertionError, s)
  | OutOfBounds => _entrofy X k w q pre_selects s = (Raise IndexError, s)
  | Returns =>
      (forall e, fst (_entrofy X k w q pre_selects s) <> Raise e)
      /\ (gains_live X (weights X w) (targets X q) ->
          exists r s', _entrofy X k w q pre_selects s = (Ok r, s'))
  end.
Proof.
  intros Hwf. unfold verdict_of.
  destruct (asserts_hold X k w q) eqn:Ha;
    [|now apply _entrofy_assert_fails].
  destruct (asserts_hold_valid X k w q Hwf Ha) as [Hv Hk].
  destruct (Z.eqb_spec k (Z.of_nat (n_participants X))) as [E|NE].
  - rewrite _entrofy_full_panel by (auto; lia).
    split; [discriminate|eauto].
  - assert (Hk' : (0 < k < Z.of_nat (n_participants X))%Z) by lia.
    assert (Hret : forall pre,
               row_ids X (seed_rows X pre s) = true ->
               (forall e, fst (_entrofy X k w q pre s) <> Raise e)
               /\ (gains_live X (weights X w) (targets X q) ->
                   exists r s', _entrofy X k w q pre s = (Ok r, s'))).
    { intros pre Hids. split.
      - intros e. now apply _entrofy_raises_nothing.
      - intros Hlive.
        destruct (@_entrofy_returns _ _ _ X k w q Hv Hk' pre s Hids
                    (fun _ => Hlive)) as [y0 [yf [x [_ Hrun]]]]. eauto. }
    destruct pre_selects as [ps|].
    + destruct (row_ids X ps) eqn:Er; [now apply Hret|].
      rewrite _entrofy_preselected by assumption.
      destruct (Z.eqb_spec k (Z.of_nat (n_participants X))); [contradiction|].
      unfold bind, pure. now rewrite seed_mask_out_of_bounds.
    + apply Hret. apply seed_rows_drawn_ids with (k := k). exact Hk'.
Qed.

Lemma _entrofy_outcome_by_verdict_witness :
  _entrofy (T:=float) Sample.X4 2 None None (Some [1; 4]) Sample.s0
  = (Raise IndexError, Sample.s0).
Proof.
  exact (@_entrofy_outcome_by_verdict float _ _ Sample.X4 2%Z None None
           (Some [1; 4]) Sample.s0 eq_refl).
Defined.

(** The sample matrix of four participants, with the default weights and
    targets, has live gains. *)
Lemma sample_gains_live :
  gains_live (T:=float) Sample.X4 (weights Sample.X4 None)
             (targets Sample.X4 None).
Proof. apply gains_live_checked. vm_compute. reflexivity. Qed.

(** ** Draws, passes and seeds *)

Section Work.
Context {T : Type} `{ArithLaws T}.

(** X4. On the greedy path with live gains a call runs [n_samples]
    trials, or one when rows are pre-selected; each trial draws once from
    the generator when no rows are given and never otherwise, and makes
    one pass of the loop per row that its seed lacks to reach [k]. *)
Theorem entrofy_draws_and_passes (X : matrix) (k : Z) (w q : option (list T))
  (pre_selects : option (list nat)) (n_samples : nat) (s : world) :
  valid_data X w q = true ->
  (0 < k < Z.of_nat (n_participants X))%Z ->
  (forall ps, pre_selects = Some ps -> row_ids X ps = true) ->
  gains_live X (weights X w) (targets X q) ->
  snd (entrofy X k w q pre_selects n_samples s)
  = advance s (trials pre_selects n_samples * draws_of pre_selects)
              (trials pre_selects n_samples
               * (Z.to_nat k - seed_size pre_selects)).
Proof.
  intros Hv Hk Hpre Hlive.
  destruct (trials pre_selects n_samples) as [|m] eqn:Et.
  - unfold entrofy. cbv zeta. rewrite Et. simpl. now rewrite advance_0_0.
  - destruct (@entrofy_returns_a_run _ _ _ X k w q pre_selects Hv Hk Hpre
                (fun _ => Hlive) n_samples s)
      as [t [y0 [yf [x [_ [_ Hrun]]]]]]; [lia|].
    rewrite Hrun, Et. reflexivity.
Qed.

(** X5. Without pre-selected rows and with live gains, the solution
    returned holds the seed row that one of the trials drew: for some [t]
    below [n_samples], the [t]-th draw of the call, reduced modulo [n]. *)
Theorem entrofy_solution_holds_a_drawn_seed (X : matrix) (k : Z)
  (w q : option (list T)) (n_samples : nat) (s : world) :
  valid_data X w q = true ->
  (0 < k < Z.of_nat (n_participants X))%Z ->
  1 <= n_samples ->
  gains_live X (weights X w) (targets X q) ->
  exists score idx s' t,
    entrofy X k w q None n_samples s = (Ok (SFloat score, VArr idx), s')
    /\ t < n_samples
    /\ In (entropy s (drawn s + t) mod n_participants X) idx.
Proof.
  intros Hv Hk Hn Hlive.
  destruct (@entrofy_returns_a_run _ _ _ X k w q None Hv Hk) with
    (n_samples := n_samples) (s := s) as [t [y0 [yf [x [Ht [Hrf Hrun]]]]]];
    [discriminate|exact (fun _ => Hlive)|exact Hn|].
  simpl in Ht, Hrf, Hrun.
  destruct Hrf as [Hseed [Hvis [Hyf _]]].
  rewrite Nat.mul_1_r in Hseed.
  set (e := entropy s (drawn s + t) mod n_participants X) in *.
  assert (Hids : row_ids X [e] = true) by (eapply seed_mask_row_ids; eauto).
  exists x, (flatnonzero yf). eexists. exists t.
  split; [exact Hrun|]. split; [exact Ht|].
  apply flatnonzero_In.
  destruct (@visited_size _ _ _ _ _ _ _ _ Hvis) as [_ [_ [_ Hkeep]]].
  split.
  - rewrite Hyf. unfold row_ids in Hids. simpl in Hids.
    rewrite Bool.andb_true_r in Hids. now apply Nat.ltb_lt.
  - apply Hkeep. apply (seed_mask_nth X [e] Hids Hseed). now left.
Qed.

(** X12. With valid data, [0 < k < n], at least one trial, at most [k]
    distinct row identifiers when rows are pre-selected, and live gains,
    [entrofy] returns a score and an index array of exactly [k] entries,
    without repetition, each below [n], in ascending order. *)
Theorem entrofy_indices_k_unique_sorted
  (X : matrix) (k : Z) (w q : option (list T))
  (pre_selects : option (list nat)) (n_samples : nat) (s : world) :
  valid_data X w q = true ->
  (0 < k < Z.of_nat (n_participants X))%Z ->
  (forall ps, pre_selects = Some ps ->
              row_ids X ps = true /\ (Z.of_nat (distinct ps) <= k)%Z) ->
  1 <= n_samples ->
  gains_live X (weights X w) (targets X q) ->
  exists score idx s',
    entrofy X k w q pre_selects n_samples s = (Ok (SFloat score, VArr idx), s')
    /\ Z.of_nat (length idx) = k
    /\ NoDup idx
    /\ Forall (fun e => e < n_participants X) idx
    /\ StronglySorted lt idx.
Proof.
  intros Hv Hk Hpre Hn Hlive.
  destruct (@entrofy_returns_a_run _ _ _ X k w q pre_selects Hv Hk) with
    (n_samples := n_samples) (s := s) as [t [y0 [yf [x [Ht [Hrf Hrun]]]]]].
  { intros ps Hps. apply (Hpre ps Hps). }
  { exact (fun _ => Hlive). }
  { unfold trials. destruct pre_selects; lia. }
  destruct Hrf as [Hseed [Hvis [Hyf [Hge [Hsame [Hgrow _]]]]]].
  pose proof (seed_mask_row_ids _ _ Hseed) as Hids.
  pose proof (seed_mask_count X _ Hids Hseed) as Hc0.
  destruct (flatnonzero_spec yf) as [Hlen [Hsort [Hnd Hb]]].
  exists x, (flatnonzero yf). eexists. split; [exact Hrun|].
  rewrite Hyf in Hb. repeat split; auto.
  rewrite Hlen.
  assert (Hle : (Z.of_nat (count y0) <= k)%Z).
  { rewrite Hc0. destruct pre_selects as [ps|]; simpl.
    - apply (Hpre ps eq_refl).
    - change (distinct [_]) with 1. lia. }
  destruct (Z.eq_dec (Z.of_nat (count y0)) k) as [E|NE].
  - rewrite Hsame by lia. exact E.
  - apply Hgrow. lia.
Qed.

End Work.

Lemma entrofy_draws_and_passes_witness :
  snd (entrofy (T:=float) Sample.X4 3 None None None 5 Sample.s0)
  = advance Sample.s0 (trials None 5 * draws_of None)
            (trials None 5 * (Z.to_nat 3 - seed_size None)).
Proof.
  apply entrofy_draws_and_passes.
  - reflexivity.
  - simpl. lia.
  - discriminate.
  - exact sample_gains_live.
Defined.

Lemma entrofy_solution_holds_a_drawn_seed_witness :
  exists score idx s' t,
    entrofy (T:=float) Sample.X4 2 None None None 3 Sample.s0
    = (Ok (SFloat score, VArr idx), s')
    /\ t < 3
    /\ In (entropy Sample.s0 (drawn Sample.s0 + t) mod n_participants Sample.X4)
          idx.
Proof.
  apply entrofy_solution_holds_a_drawn_seed.
  - reflexivity.
  - simpl. lia.
  - lia.
  - exact sample_gains_live.
Defined.

Lemma entrofy_indices_k_unique_sorted_witness :
  exists score idx s',
    entrofy (T:=float) Sample.X4 2 None None (Some [3; 3]) 3 Sample.s0
    = (Ok (SFloat score, VArr idx), s')
    /\ Z.of_nat (length idx) = 2%Z
    /\ NoDup idx
    /\ Forall (fun e => e < n_participants Sample.X4) idx
    /\ StronglySorted lt idx.
Proof.
  apply entrofy_indices_k_unique_sorted.
  - reflexivity.
  - simpl. lia.
  - intros ps [= <-]. split; [reflexivity|]. vm_compute. discriminate.
  - lia.
  - exact sample_gains_live.
Defined.

(** ** Score and solution *)

(** A call with the rows of a last mask pre-selected returns them at
    once, with their score. *)
Lemma entrofy_of_a_solution {T : Type} `{Arith T}
  (X : matrix) (k : Z) (w q : option (list T)) (ps : list nat)
  (y0 yf : mask) (x : T) (n_samples : nat) (s : world) :
  valid_data X w q = true ->
  (0 < k < Z.of_nat (n_participants X))%Z ->
  run_from X k w q ps y0 yf x ->
  entrofy X k w q (Some (flatnonzero yf)) n_samples s
  = (Ok (SFloat x, VArr (flatnonzero yf)), s).
Proof.
  intros Hv Hk [_ [_ [Hyf [Hsize [_ [_ Hobj]]]]]].
  rewrite entrofy_one_trial by reflexivity.
  pose proof (seed_mask_of_flatnonzero X yf Hyf) as Hseed.
  destruct (@_entrofy_at_target _ _ X k w q Hv Hk (Some (flatnonzero yf)) s yf
              Hseed Hsize) as [x' [[_ [_ [_ [_ [_ [_ Hobj']]]]]] Hrun]].
  unfold bind. rewrite Hrun. simpl. rewrite advance_0_0. unfold pure.
  congruence.
Qed.

(** X6. With live gains, the score [entrofy] returns is the objective of
    the solution it returns: [obj] at the column means of the rows of [X]
    that the returned indices name. *)
Theorem entrofy_score_is_objective_of_solution {T : Type} `{ArithLaws T}
  (X : matrix) (k : Z) (w q : option (list T))
  (pre_selects : option (list nat)) (n_samples : nat) (s : world) :
  valid_data X w q = true ->
  (0 < k < Z.of_nat (n_participants X))%Z ->
  (forall ps, pre_selects = Some ps -> row_ids X ps = true) ->
  1 <= trials pre_selects n_samples ->
  gains_live X (weights X w) (targets X q) ->
  exists x idx y s',
    entrofy X k w q pre_selects n_samples s = (Ok (SFloat x, VArr idx), s')
    /\ seed_mask X idx = Ok y
    /\ obj (nanmean X y) (weights X w) (targets X q) = Ok x.
Proof.
  intros Hv Hk Hpre Hn Hlive.
  destruct (@entrofy_returns_a_run _ _ _ X k w q pre_selects Hv Hk Hpre
              (fun _ => Hlive) n_samples s Hn)
    as [t [y0 [yf [x [_ [Hrf Hrun]]]]]].
  destruct Hrf as [_ [_ [Hyf [_ [_ [_ Hobj]]]]]].
  exists x, (flatnonzero yf), yf. eexists.
  split; [exact Hrun|]. split; [|exact Hobj].
  now apply seed_mask_of_flatnonzero.
Qed.

Lemma entrofy_score_is_objective_of_solution_witness :
  exists x idx y s',
    entrofy (T:=float) Sample.X4 2 None None None 3 Sample.s0
    = (Ok (SFloat x, VArr idx), s')
    /\ seed_mask Sample.X4 idx = Ok y
    /\ obj (nanmean Sample.X4 y) (weights (T:=float) Sample.X4 None)
           (targets (T:=float) Sample.X4 None) = Ok x.
Proof.
  apply entrofy_score_is_objective_of_solution.
  - reflexivity.
  - simpl. lia.
  - discriminate.
  - simpl. lia.
  - exact sample_gains_live.
Defined.

(** X7. A solution is a fixed point: when [entrofy] has returned a score
    and an index array on the greedy path, passing the indices back as
    [pre_selects], with the same data and [k], returns the same score and
    the same indices, without a draw or a pass of the loop, whatever the
    state of the generator and [n_samples]. *)
Theorem entrofy_solution_is_a_fixed_point {T : Type} `{Arith T}
  (X : matrix) (k : Z) (w q : option (list T))
  (pre_selects : option (list nat)) (n_samples n_samples2 : nat)
  (s s' s2 : world) (score : scalar T) (idx : list nat) :
  valid_data X w q = true ->
  (0 < k < Z.of_nat (n_participants X))%Z ->
  entrofy X k w q pre_selects n_samples s = (Ok (score, VArr idx), s') ->
  entrofy X k w q (Some idx) n_samples2 s2 = (Ok (score, VArr idx), s2).
Proof.
  intros Hv Hk He.
  destruct (@entrofy_result _ _ X k w q pre_selects Hv Hk _ _ _ _ _ He)
    as [st [y0 [yf [x [Hrf [-> [= ->]]]]]]].
  eapply entrofy_of_a_solution; eauto.
Qed.

Lemma entrofy_solution_is_a_fixed_point_witness :
  exists score idx s',
    entrofy (T:=float) Sample.X4 2 None None None 3 Sample.s0
    = (Ok (score, VArr idx), s')
    /\ entrofy (T:=float) Sample.X4 2 None None (Some idx) 15 Sample.s0
       = (Ok (score, VArr idx), Sample.s0).
Proof.
  do 3 eexists. split.
  - symmetry. vm_compute. reflexivity.
  - eapply (@entrofy_solution_is_a_fixed_point float _ Sample.X4 2%Z None None
              None 3 15 Sample.s0).
    + reflexivity.
    + simpl. lia.
    + symmetry. vm_compute. reflexivity.
Defined.

(** X8. With live gains, solutions from the same pre-selected rows are
    nested: the rows returned for a target [k] are among the rows returned
    for any greater target [k' < n]. *)
Theorem entrofy_solutions_nested_in_k {T : Type} `{ArithLaws T}
  (X : matrix) (k k' : Z) (w q : option (list T)) (ps : list nat)
  (n_samples n_samples' : nat) (s s' : world) :
  valid_data X w q = true ->
  (0 < k <= k')%Z -> (k' < Z.of_nat (n_participants X))%Z ->
  row_ids X ps = true ->
  gains_live X (weights X w) (targets X q) ->
  exists score idx s1 score' idx' s2,
    entrofy X k w q (Some ps) n_samples s = (Ok (score, VArr idx), s1)
    /\ entrofy X k' w q (Some ps) n_samples' s' = (Ok (score', VArr idx'), s2)
    /\ forall e, In e idx -> In e idx'.
Proof.
  intros Hv Hkk Hk' Hids Hlive.
  assert (Hk1 : (0 < k < Z.of_nat (n_participants X))%Z) by lia.
  assert (Hk2 : (0 < k' < Z.of_nat (n_participants X))%Z) by lia.
  destruct (@_entrofy_returns _ _ _ X k w q Hv Hk1 (Some ps) s Hids
              (fun _ => Hlive)) as [y0 [yf [x [Hrf1 Hrun1]]]].
  destruct (@_entrofy_returns _ _ _ X k' w q Hv Hk2 (Some ps) s' Hids
              (fun _ => Hlive)) as [y0' [yf' [x' [Hrf2 Hrun2]]]].
  destruct Hrf1 as [Hs1 [Hv1 [Hl1 _]]].
  destruct Hrf2 as [Hs2 [Hv2 [Hl2 [Hfin _]]]].
  simpl in Hs1, Hs2. rewrite Hs1 in Hs2. injection Hs2 as <-.
  assert (Hpre : visited X k' (weights X w) (targets X q) yf yf').
  { eapply visited_prefix; eauto. lia. }
  exists (SFloat x), (flatnonzero yf). eexists.
  exists (SFloat x'), (flatnonzero yf'). eexists.
  rewrite !entrofy_one_trial by reflexivity. unfold bind.
  rewrite Hrun1, Hrun2. unfold pure. simpl.
  split; [reflexivity|]. split; [reflexivity|].
  intros e He. apply flatnonzero_In in He. destruct He as [He1 He2].
  apply flatnonzero_In. split; [congruence|].
  destruct (@visited_size _ _ _ _ _ _ _ _ Hpre) as [_ [_ [_ Hkeep]]].
  now apply Hkeep.
Qed.

Lemma entrofy_solutions_nested_in_k_witness :
  exists score idx s1 score' idx' s2,
    entrofy (T:=float) Sample.X4 2 None None (Some [3]) 1 Sample.s0
    = (Ok (score, VArr idx), s1)
    /\ entrofy (T:=float) Sample.X4 3 None None (Some [3]) 1 Sample.s0
       = (Ok (score', VArr idx'), s2)
    /\ forall e, In e idx -> In e idx'.
Proof.
  apply entrofy_solutions_nested_in_k.
  - reflexivity.
  - lia.
  - simpl. lia.
  - reflexivity.
  - exact sample_gains_live.
Defined.

(** ** The row a pass adds *)

(** X13. In a run of [_entrofy] (asserts passed, seed mask [y0]), take a
    pass of the loop at the mask [y] where some row not yet selected has a
    marginal gain [delta[e] = obj(p', w, q) - obj(p, w, q)], with
    [p' = (p * i + X[e]) / (i + 1)], that is not [-inf].  The pass adds one
    row [e], which was not selected; no row not yet selected has a greater
    gain than [e]; and every row not yet selected of lower number has a
    gain that is neither as great nor a [nan].  When the gain of some row
    not yet selected is [nan], so is the gain of [e]. *)
Theorem greedy_pass_adds_first_best_free_row {T : Type} `{ArithLaws T}
  (X : matrix) (k : Z) (w q : option (list T)) (ps : list nat)
  (y0 y y' : mask) :
  valid_data X w q = true ->
  (0 < k <= Z.of_nat (n_participants X))%Z ->
  seed_mask X ps = Ok y0 ->
  visited X k (weights X w) (targets X q) y0 y ->
  iteration X k (weights X w) (targets X q) y y' ->
  (exists j gj,
     j < n_participants X /\ nth j y false = false
     /\ marginal_gain X (weights X w) (targets X q) y j = Ok gj
     /\ above_neg_inf gj = true) ->
  exists e ge,
    y' = set_at y e
    /\ e < n_participants X
    /\ nth e y false = false
    /\ marginal_gain X (weights X w) (targets X q) y e = Ok ge
    /\ forall j gj,
         j < n_participants X -> nth j y false = false ->
         marginal_gain X (weights X w) (targets X q) y j = Ok gj ->
         ltb ge gj = false
         /\ (is_nan gj = true -> is_nan ge = true)
         /\ (j < e -> leb ge gj = false /\ is_nan gj = false).
Proof.
  intros Hv Hk Hseed Hvis Hit [j0 [g0 [Hj0 [Hy0 [Hg0 Ha0]]]]].
  pose proof (seed_mask_row_ids X ps Hseed) as Hids.
  pose proof (seed_mask_length X ps Hids Hseed) as Hl0.
  destruct (@visited_size _ _ _ _ _ _ _ _ Hvis) as [Hy _].
  rewrite Hl0 in Hy.
  inversion Hit as [y1 y2 Hlt Hbody]; subst y1 y2.
  destruct (body_inv _ _ _ _ Hbody) as [delta [e [Hg [Harg ->]]]].
  destruct (gains_rows _ _ _ _ Hg) as [Ld Hrows].
  assert (Hyd : length y = length delta) by congruence.
  destruct (argmax_first_best (d:=knock_out y delta)) as [e' [He' Hbest]].
  { intros E. apply (f_equal (@length _)) in E.
    rewrite knock_out_length in E by exact Hyd. simpl in E. lia. }
  rewrite Harg in He'. injection He' as <-.
  assert (Hval : forall j gj,
             j < n_participants X ->
             marginal_gain X (weights X w) (targets X q) y j = Ok gj ->
             gj = nth j delta zero).
  { intros j gj Hj Hm. rewrite (Hrows j Hj) in Hm. now injection Hm. }
  assert (Hlive : live y delta = true).
  { apply (@row_live _ _ y delta j0); auto; try lia.
    now rewrite <- (Hval j0 g0 Hj0 Hg0). }
  pose proof (@argmax_knock_out_free _ _ _ y delta e Hyd Hlive Hbest) as Hfree.
  pose proof Hbest as [He [Hfirst _]].
  rewrite knock_out_length in He by exact Hyd.
  assert (Hko : forall j, j < n_participants X -> nth j y false = false ->
                          nth j (knock_out y delta) zero = nth j delta zero).
  { intros j Hj Hn. rewrite knock_out_nth, Hn by (auto; lia). reflexivity. }
  exists e, (nth e delta zero).
  split; [reflexivity|]. split; [lia|]. split; [exact Hfree|].
  split; [apply Hrows; lia|].
  intros j gj Hj Hn Hm. rewrite (Hval j gj Hj Hm).
  assert (Hjk : j < length (knock_out y delta))
    by (rewrite knock_out_length; auto; lia).
  destruct (first_best_greatest Hbest Hjk) as [Hgt Hnan].
  rewrite (Hko e), (Hko j) in Hgt, Hnan by (auto; lia).
  split; [exact Hgt|]. split; [exact Hnan|].
  intros Hje. destruct (Hfirst j Hje) as [Hn1 Hn2].
  rewrite (Hko j) in Hn1 by (auto; lia).
  rewrite (Hko e), (Hko j) in Hn2 by (auto; lia). auto.
Qed.

Lemma greedy_pass_adds_first_best_free_row_witness :
  exists e ge,
    [true; true; false] = set_at [true; false; false] e
    /\ e < n_participants Sample.X3
    /\ nth e [true; false; false] false = false
    /\ marginal_gain (T:=float) Sample.X3 (weights Sample.X3 None)
         (targets Sample.X3 None) [true; false; false] e = Ok ge
    /\ forall j gj,
         j < n_participants Sample.X3 ->
         nth j [true; false; false] false = false ->
         marginal_gain (T:=float) Sample.X3 (weights Sample.X3 None)
           (targets Sample.X3 None) [true; false; false] j = Ok gj ->
         ltb ge gj = false
         /\ (is_nan gj = true -> is_nan ge = true)
         /\ (j < e -> leb ge gj = false /\ is_nan gj = false).
Proof.
  apply (@greedy_pass_adds_first_best_free_row float _ _ Sample.X3 2%Z None None
           [0] [true; false; false]).
  - reflexivity.
  - simpl. lia.
  - reflexivity.
  - constructor.
  - constructor; [simpl; lia|vm_compute; reflexivity].
  - exists 1. eexists. split; [cbv; lia|]. split; [reflexivity|].
    split; [vm_compute; reflexivity|]. reflexivity.
Defined.

(** ** More trials *)

Section MoreTrials.
Context {T : Type} `{ArithLaws T}.

(** The reduction keeps the result it holds, or replaces it by one of
    strictly greater score. *)
Lemma best_of_improves (rs : list (selection T)) (x : T) (idx : list nat) :
  Forall (fun r => exists sc i, r = Pair sc i) rs ->
  exists x' idx',
    best_of rs (SFloat x) (VArr idx) = Ok (SFloat x', VArr idx')
    /\ ((x' = x /\ idx' = idx) \/ ltb x x' = true).
Proof.
  intros Hall; revert x idx.
  induction Hall as [|r rs [x1 [i1 ->]] Hall IH]; intros x idx.
  - exists x, idx. split; [reflexivity|]. now left.
  - change (best_of (Pair x1 i1 :: rs) (SFloat x) (VArr idx))
      with (if ltb x x1 then best_of rs (SFloat x1) (VArr i1)
            else best_of rs (SFloat x) (VArr idx)).
    destruct (ltb x x1) eqn:Hlt; [|apply IH].
    destruct (IH x1 i1) as [x' [idx' [Hb Himp]]].
    exists x', idx'. split; [exact Hb|right].
    destruct Himp as [[-> _]|Hgt]; [exact Hlt|].
    eapply ltb_trans; eauto.
Qed.

(** X10. With live gains, more trials never lower the score: from the
    same generator state, a call with [n_samples'] random trials runs the
    [n_samples] trials of the shorter call first, and returns what the
    shorter call returns or a result of strictly greater score. *)
Theorem more_samples_never_lower_the_score
  (X : matrix) (k : Z) (w q : option (list T))
  (n_samples n_samples' : nat) (s : world) :
  valid_data X w q = true ->
  (0 < k < Z.of_nat (n_participants X))%Z ->
  1 <= n_samples ->
  n_samples <= n_samples' ->
  gains_live X (weights X w) (targets X q) ->
  exists x idx s1 x' idx' s2,
    entrofy X k w q None n_samples s = (Ok (SFloat x, VArr idx), s1)
    /\ entrofy X k w q None n_samples' s
       = (Ok (SFloat x', VArr idx'), s2)
    /\ ((x' = x /\ idx' = idx) \/ ltb x x' = true).
Proof.
  intros Hv Hk HN HNN Hlive.
  set (is_pair := fun r : selection T => exists sc i, r = Pair sc i).
  assert (Hret : forall s0, exists r s', _entrofy X k w q None s0 = (Ok r, s')
                                         /\ is_pair r).
  { intros s0.
    destruct (@_entrofy_returns _ _ _ X k w q Hv Hk None s0)
      as [y0 [yf [x [_ Hrun]]]].
    - apply seed_rows_drawn_ids with (k := k). exact Hk.
    - intros _. exact Hlive.
    - do 2 eexists. split; [exact Hrun|]. unfold is_pair. eauto. }
  destruct (mapM_all_return (A:=nat) (_entrofy X k w q None) is_pair
              (seq 0 n_samples) Hret s) as [rs1 [s1 [Hm1 [Hl1 Hp1]]]].
  destruct (mapM_all_return (A:=nat) (_entrofy X k w q None) is_pair
              (seq n_samples (n_samples' - n_samples)) Hret s1)
    as [rs2 [s2 [Hm2 [_ Hp2]]]].
  pose proof (@mapM_app_ok _ _ _ _ _ _ _ _ _ _ Hm1 Hm2) as Hm.
  rewrite <- seq_app in Hm.
  replace (n_samples + (n_samples' - n_samples)) with n_samples' in Hm by lia.
  rewrite length_seq in Hl1.
  destruct rs1 as [|r0 rest1]; [simpl in Hl1; lia|].
  pose proof (Forall_inv_tail Hp1) as Hrest.
  destruct (Forall_inv Hp1) as [x0 [i0 ->]].
  destruct (@best_of_improves rest1 x0 i0 Hrest) as [x [idx [Hb1 _]]].
  destruct (@best_of_improves rs2 x idx Hp2) as [x' [idx' [Hb2 Himp]]].
  exists x, idx, s1, x', idx', s2.
  unfold entrofy. cbv zeta. simpl trials. unfold bind.
  rewrite Hm1, Hm. unfold pure. simpl.
  split; [now rewrite Hb1|]. split; [|exact Himp].
  rewrite best_of_app, Hb1. simpl. now rewrite Hb2.
Qed.

End MoreTrials.

Lemma more_samples_never_lower_the_score_witness :
  exists x idx s1 x' idx' s2,
    entrofy (T:=float) Sample.X4 2 None None None 1 Sample.s0
    = (Ok (SFloat x, VArr idx), s1)
    /\ entrofy (T:=float) Sample.X4 2 None None None 3 Sample.s0
       = (Ok (SFloat x', VArr idx'), s2)
    /\ ((x' = x /\ idx' = idx) \/ ltb x x' = true).
Proof.
  apply more_samples_never_lower_the_score.
  - reflexivity.
  - simpl. lia.
  - lia.
  - lia.
  - exact sample_gains_live.
Defined.

(** ** Exceptions of the entry point *)

Lemma mapM_never_raises {A B} (f : M B) (l : list A) :
  (forall s e, fst (f s) <> Raise e) ->
  forall s e, fst (mapM (fun _ => f) l s) <> Raise e.
Proof.
  intros Hf. induction l as [|a l IH]; intros s e; simpl; [discriminate|].
  unfold bind at 1. specialize (Hf s).
  destruct (f s) as [[r|e'|] s1]; simpl in *.
  - unfold bind. specialize (IH s1 e).
    destruct (mapM (fun _ => f) l s1) as [[rs|e'|] s2]; simpl in *;
      [discriminate|congruence|discriminate].
  - exfalso. now apply (Hf e').
  - discriminate.
Qed.

(** X11. On a rectangular matrix, the arguments decide what [entrofy]
    raises.  With no trial to run ([n_samples = 0] and no pre-selected
    rows) it raises [IndexError] at [results[0]] before any assert is
    reached.  Otherwise the first trial decides: [AssertionError] when an
    assert fails, [IndexError] when a pre-selected row number is out of
    bounds, [ValueError] from the unpacking when [k == n] (the pair
    [(0, 1)] when [n = 2]), and nothing in every other case, where it
    returns a score with an index array when the gains are live.  When it
    raises, nothing was drawn and no pass of the loop was made. *)
Theorem entrofy_call_outcome {T : Type} `{ArithLaws T}
  (X : matrix) (k : Z) (w q : option (list T))
  (pre_selects : option (list nat)) (n_samples : nat) (s : world) :
  wf_matrix X = true ->
  if trials pre_selects n_samples =? 0
  then entrofy X k w q pre_selects n_samples s = (Raise IndexError, s)
  else match verdict_of X k w q pre_selects with
       | Rejects =>
           entrofy X k w q pre_selects n_samples s = (Raise AssertionError, s)
       | OutOfBounds =>
           entrofy X k w q pre_selects n_samples s = (Raise IndexError, s)
       | Returns =>
           if (k =? Z.of_nat (n_participants X))%Z
           then entrofy X k w q pre_selects n_samples s
                = (if n_participants X =? 2 then Ok (SInt 0, VInt 1)
                   else Raise ValueError, s)
           else (forall e, fst (entrofy X k w q pre_selects n_samples s)
                           <> Raise e)
                /\ (gains_live X (weights X w) (targets X q) ->
                    exists x idx s',
                      entrofy X k w q pre_selects n_samples s
                      = (Ok (SFloat x, VArr idx), s'))
       end.
Proof.
  intros Hwf.
  destruct (trials pre_selects n_samples) as [|m] eqn:Et; simpl Nat.eqb.
  { unfold entrofy. cbv zeta. rewrite Et. reflexivity. }
  assert (Hraise : forall e,
             _entrofy X k w q pre_selects s = (Raise e, s) ->
             entrofy X k w q pre_selects n_samples s = (Raise e, s)).
  { intros e He. unfold entrofy. cbv zeta. rewrite Et.
    change (seq 0 (S m)) with (0 :: seq 1 m).
    unfold bind. now rewrite (@mapM_first_raises nat _ _ 0 (seq 1 m) e s s He). }
  assert (Ht : 1 <= trials pre_selects n_samples) by lia.
  unfold verdict_of.
  destruct (asserts_hold X k w q) eqn:Ha;
    [|now apply Hraise, _entrofy_assert_fails].
  destruct (asserts_hold_valid X k w q Hwf Ha) as [Hv Hk].
  destruct (Z.eqb_spec k (Z.of_nat (n_participants X))) as [E|NE].
  - apply entrofy_full_panel; auto; lia.
  - assert (Hk' : (0 < k < Z.of_nat (n_participants X))%Z) by lia.
    assert (Hret : (forall ps, pre_selects = Some ps -> row_ids X ps = true) ->
               (forall e, fst (entrofy X k w q pre_selects n_samples s)
                          <> Raise e)
               /\ (gains_live X (weights X w) (targets X q) ->
                   exists x idx s',
                     entrofy X k w q pre_selects n_samples s
                     = (Ok (SFloat x, VArr idx), s'))).
    { intros Hpre. split.
      - intros e. unfold entrofy. cbv zeta. unfold bind.
        pose proof (@mapM_never_raises nat _ (_entrofy X k w q pre_selects)
                      (seq 0 (trials pre_selects n_samples))) as Hnr.
        destruct (mapM (fun _ => _entrofy X k w q pre_selects)
                    (seq 0 (trials pre_selects n_samples)) s)
          as [[rs|e'|] s1] eqn:Em.
        + unfold pure. simpl.
          destruct (mapM_results (_entrofy X k w q pre_selects)
                      (fun r => exists sc i, r = Pair sc i /\ True)
                      (seq 0 (trials pre_selects n_samples))) with
            (s := s) (rs := rs) (s' := s1) as [Hl Hall]; auto.
          { intros st r st' Hr.
            destruct (@_entrofy_result _ _ X k w q Hv Hk' _ _ _ _ Hr)
              as [y0 [yf [x [_ ->]]]]. eauto. }
          rewrite length_seq in Hl.
          destruct (reduce_pairs (rs:=rs) (fun _ _ => True))
            as [sc [i [-> _]]]; auto; [|discriminate].
          intros ->. simpl in Hl. lia.
        + exfalso. apply (Hnr) with (s := s) (e := e').
          * intros s0 e0. apply _entrofy_raises_nothing; auto.
            destruct pre_selects as [ps|]; [now apply Hpre|].
            apply seed_rows_drawn_ids with (k := k). exact Hk'.
          * rewrite Em. reflexivity.
        + discriminate.
      - intros Hlive.
        destruct (@entrofy_returns_a_run _ _ _ X k w q pre_selects Hv Hk' Hpre
                    (fun _ => Hlive) n_samples s Ht)
          as [t [y0 [yf [x [_ [_ Hrun]]]]]]. eauto. }
    destruct pre_selects as [ps|].
    + destruct (row_ids X ps) eqn:Er.
      * apply Hret. now intros ps0 [= <-].
      * apply Hraise. rewrite _entrofy_preselected by assumption.
        destruct (Z.eqb_spec k (Z.of_nat (n_participants X))); [contradiction|].
        unfold bind, pure. now rewrite seed_mask_out_of_bounds.
    + apply Hret. discriminate.
Qed.

Lemma entrofy_call_outcome_witness :
  entrofy (T:=float) Sample.X4 0 None None None 0 Sample.s0
  = (Raise IndexError, Sample.s0).
Proof.
  exact (@entrofy_call_outcome float _ _ Sample.X4 0%Z None None None 0
           Sample.s0 eq_refl).
Defined.

(** ** An empty list of pre-selected rows *)

Section EmptySeed.
Context {T : Type} {A : Arith T} {L : ArithLaws T} {N : NanLaws T}.

Lemma broadcast_same (f : T -> T -> T) (a b : list T) :
  length a = length b -> broadcast f a b = Ok (zip_with f a b).
Proof. intros E. unfold broadcast. rewrite E, Nat.eqb_refl. reflexivity. Qed.

Lemma zip_with_length (f : T -> T -> T) (a b : list T) :
  length (zip_with f a b) = Nat.min (length a) (length b).
Proof. unfold zip_with. rewrite length_map. apply length_combine. Qed.

Lemma zip_with_nan_l (f : T -> T -> T) (a b : list T) :
  (forall x y, is_nan x = true -> is_nan (f x y) = true) ->
  Forall (fun x => is_nan x = true) a ->
  Forall (fun x => is_nan x = true) (zip_with f a b).
Proof.
  intros Hf Ha. revert b.
  induction Ha as [|x a Hx Ha IH]; intros [|y b]; simpl; try constructor.
  - now apply Hf.
  - apply IH.
Qed.

Lemma fold_dot_nan (l : list (T * T)) (acc : T) :
  is_nan acc = true -> is_nan (fold_left dot_step l acc) = true.
Proof.
  revert acc; induction l as [|ab l IH]; intros acc Hacc; simpl; [exact Hacc|].
  apply IH. unfold dot_step. now apply nan_add_l.
Qed.

Lemma dot_nan (a b : list T) :
  length a = length b -> a <> [] ->
  Forall (fun x => is_nan x = true) a ->
  exists v, dot a b = Ok v /\ is_nan v = true.
Proof.
  intros E Hne Ha. unfold dot. rewrite E, Nat.eqb_refl.
  eexists; split; [reflexivity|].
  destruct Ha as [|x a Hx Ha]; [congruence|].
  destruct b as [|y b]; [discriminate|].
  simpl. apply fold_dot_nan. unfold dot_step. simpl.
  apply nan_add_r. now apply nan_mul_l.
Qed.

(** [obj] of an array of [nan] is [nan]. *)
Lemma obj_nan (p w q : list T) :
  length w = length p -> length q = length p -> p <> [] ->
  Forall (fun x => is_nan x = true) p ->
  exists v, obj p w q = Ok v /\ is_nan v = true.
Proof.
  intros Hw Hq Hne Hp. unfold obj, log_floor, complement.
  rewrite broadcast_same by (rewrite !length_map; lia). simpl obind.
  rewrite broadcast_same
    by (rewrite zip_with_length, !length_map; lia). simpl obind.
  rewrite broadcast_same by (rewrite !length_map; lia). simpl obind.
  rewrite broadcast_same
    by (rewrite zip_with_length, !length_map; lia). simpl obind.
  rewrite broadcast_same
    by (rewrite !zip_with_length, !length_map; lia). simpl obind.
  match goal with
  | |- context [dot ?H w] =>
      destruct (@dot_nan H w) as [v [Hd Hv]]
  end.
  - rewrite !zip_with_length, !length_map. lia.
  - intros E. apply (f_equal (@length T)) in E.
    rewrite !zip_with_length, !length_map, Hq in E.
    destruct p; [congruence|]. simpl length in E. lia.
  - apply zip_with_nan_l; [apply nan_add_l|].
    apply zip_with_nan_l; [apply nan_mul_l|exact Hp].
  - rewrite Hd. simpl. eexists; split; [reflexivity|]. now apply nan_opp.
Qed.

Lemma select_none {B} (n : nat) (l : list B) : select (repeat false n) l = [].
Proof.
  unfold select. revert l; induction n as [|n IH]; intros [|x l]; simpl; auto.
Qed.

(** The mean of no rows is [nan] in every column. *)
Lemma nanmean_of_no_rows (X : matrix) (n : nat) :
  Forall (fun x : T => is_nan x = true) (nanmean X (repeat false n)).
Proof.
  unfold nanmean. rewrite select_none. apply Forall_forall. intros x Hx.
  apply in_map_iff in Hx. destruct Hx as [j [<- _]]. apply nan_div_0_0.
Qed.

Lemma p_new_nan (X : matrix) (p : list T) (i : nat) :
  Forall (fun x => is_nan x = true) p ->
  Forall (Forall (fun x => is_nan x = true)) (p_new X p i).
Proof.
  intros Hp. unfold p_new. apply Forall_forall. intros r Hr.
  apply in_map_iff in Hr. destruct Hr as [row [<- _]]. revert row.
  induction Hp as [|x p Hx Hp IH]; intros [|b row]; simpl; try constructor.
  - apply nan_div_l, nan_add_l, nan_mul_l. exact Hx.
  - apply IH.
Qed.

Lemma knock_out_none (n : nat) (delta : list T) :
  length delta = n -> knock_out (repeat false n) delta = delta.
Proof.
  unfold knock_out. revert delta.
  induction n as [|n IH]; intros [|d delta]; simpl; try discriminate; auto.
  intros [= E]. now rewrite IH.
Qed.

Lemma argmax_from_repeat (g : T) (m pos ind : nat) :
  is_nan g = false -> argmax_from (repeat g m) pos g ind = ind.
Proof.
  intros Hg. revert pos; induction m as [|m IH]; intros pos; simpl; auto.
  rewrite (leb_refl g Hg). apply IH.
Qed.

Lemma argmax_repeat (g : T) (m : nat) : argmax (repeat g (S m)) = Ok 0.
Proof.
  simpl. destruct (is_nan g) eqn:Hg; [reflexivity|].
  now rewrite argmax_from_repeat.
Qed.

Section FirstPass.
Variable X : matrix.
Variables w q : list T.
Hypothesis Hwf : wf_matrix X = true.
Hypothesis Hw : length w = n_attributes X.
Hypothesis Hq : length q = n_attributes X.

(** With no row selected the gain of every row is [nan]. *)
Lemma gains_of_no_rows :
  0 < n_attributes X ->
  exists delta,
    gains X w q (repeat false (n_participants X)) = Ok delta
    /\ length delta = n_participants X
    /\ Forall (fun g => is_nan g = true) delta.
Proof.
  intros Hf. set (y := repeat false (n_participants X)).
  pose proof (nanmean_of_no_rows X (n_participants X)) as Hp. fold y in Hp.
  pose proof (@nanmean_length _ _ X y) as Lp.
  destruct (@p_new_rows _ _ X w q Hwf Hw Hq (nanmean X y) (count y) Lp)
    as [Ln Hrows].
  pose proof (p_new_nan X (count y) Hp) as Hnan.
  unfold gains. fold y.
  destruct (omapM_ok (fun row => obj row w q) (fun v => is_nan v = true)
              (p_new X (nanmean X y) (count y))) as [g [Hg [Lg Ng]]].
  { intros r Hr.
    pose proof (proj1 (Forall_forall _ _) Hrows r Hr) as Lr. simpl in Lr.
    apply obj_nan; try congruence.
    - intros ->. simpl in Lr. lia.
    - exact (proj1 (Forall_forall _ _) Hnan r Hr). }
  unfold obj_rows. rewrite Hg. simpl.
  destruct (@obj_nan (nanmean X y) w q) as [base [Hb Nb]]; try congruence.
  { intros E. rewrite E in Lp. simpl in Lp. lia. }
  rewrite Hb. simpl. eexists; split; [reflexivity|].
  split; [rewrite length_map; congruence|].
  apply Forall_forall. intros x Hx. apply in_map_iff in Hx.
  destruct Hx as [ge [<- Hin]]. apply nan_sub_l.
  exact (proj1 (Forall_forall _ _) Ng ge Hin).
Qed.

(** Without attributes the gain of every row is the same. *)
Lemma gains_without_attributes (y : mask) :
  n_attributes X = 0 ->
  exists g, gains X w q y = Ok (repeat g (n_participants X)).
Proof.
  intros Hf. rewrite Hf in Hw, Hq.
  destruct w; [|discriminate]. destruct q; [|discriminate].
  unfold gains, nanmean, p_new, obj_rows, n_participants. rewrite Hf. simpl.
  assert (E : omapM (fun row => obj row [] [])
                (map (fun _ : list bool => @nil T) (rows X))
              = Ok (repeat (opp zero) (length (rows X)))).
  { induction (rows X) as [|r rs IH]; simpl; [reflexivity|].
    rewrite IH. reflexivity. }
  rewrite E. simpl. rewrite map_repeat. eexists. reflexivity.
Qed.

(** The first pass from the empty selection adds row [0]. *)
Lemma first_pass_of_no_rows :
  0 < n_participants X ->
  body X w q (repeat false (n_participants X))
  = Ok (set_at (repeat false (n_participants X)) 0).
Proof.
  intros Hn. unfold body.
  destruct (Nat.eq_dec (n_attributes X) 0) as [Hf|Hf].
  - destruct (gains_without_attributes (repeat false (n_participants X)) Hf)
      as [g Hg].
    rewrite Hg. simpl. rewrite knock_out_none by apply repeat_length.
    destruct (n_participants X) as [|n]; [lia|].
    rewrite argmax_repeat. reflexivity.
  - destruct gains_of_no_rows as [delta [Hd [Ld Nd]]]; [lia|].
    rewrite Hd. simpl. rewrite knock_out_none by exact Ld.
    destruct Nd as [|g delta Hg Nd]; [simpl in Ld; lia|].
    simpl. rewrite Hg. reflexivity.
Qed.

End FirstPass.

(** X9. An empty list of pre-selected rows seeds the run with row [0].
    With [pre_selects = []] no row is selected in the first pass of the
    loop: the mean of no rows is [nan] in every column, so is the gain of
    every row, and [np.argmax] takes index [0].  From there the run is the
    run from [pre_selects = [0]]: with live gains both calls return the
    same score and the same indices, row [0] among them, the call with
    the empty list after one pass more. *)
Theorem empty_pre_selects_seed_row_0
  (X : matrix) (k : Z) (w q : option (list T)) (n_samples : nat) (s : world) :
  valid_data X w q = true ->
  (0 < k < Z.of_nat (n_participants X))%Z ->
  gains_live X (weights X w) (targets X q) ->
  (0 < n_attributes X ->
   exists delta,
     gains X (weights X w) (targets X q) (repeat false (n_participants X))
     = Ok delta
     /\ length delta = n_participants X
     /\ Forall (fun g => is_nan g = true) delta)
  /\ body X (weights X w) (targets X q) (repeat false (n_participants X))
     = Ok (set_at (repeat false (n_participants X)) 0)
  /\ exists x idx s',
       entrofy X k w q (Some [0]) n_samples s = (Ok (SFloat x, VArr idx), s')
       /\ entrofy X k w q (Some []) n_samples s
          = (Ok (SFloat x, VArr idx), advance s' 0 1)
       /\ In 0 idx.
Proof.
  intros Hv Hk Hlive.
  destruct (valid_data_arrays X w q Hv) as [Hwf [Hw Hq]].
  set (n := n_participants X) in *.
  set (yE := repeat false n). set (y0 := set_at yE 0).
  assert (Hn : 0 < n) by lia.
  pose proof (@first_pass_of_no_rows X _ _ Hwf Hw Hq Hn) as Hbody.
  split; [intros Hf; now apply gains_of_no_rows|].
  split; [exact Hbody|].
  assert (Ly0 : length y0 = n).
  { unfold y0, yE. rewrite set_at_length. apply repeat_length. }
  assert (Cy0 : count y0 = 1).
  { unfold y0, yE. rewrite count_set_at by (rewrite repeat_length; lia).
    now rewrite nth_repeat_false, count_repeat_false. }
  assert (Hkn : (k <= Z.of_nat n)%Z) by lia.
  destruct (@loop_returns _ _ _ X k _ _ Hwf Hw Hq Hkn Hlive (S n) y0 s Ly0)
    as [yf [Hrun [Hvis [Hsame Hgrow]]]]; [lia|].
  destruct (@loop_returns _ _ _ X k _ _ Hwf Hw Hq Hkn Hlive n y0
              (advance s 0 1) Ly0)
    as [yf' [Hrun' _]]; [lia|].
  assert (Eyf : yf' = yf).
  { pose proof (@loop_more_fuel _ _ X k (weights X w) (targets X q) n y0 yf'
                  (advance s 0 1) s) as Hm.
    rewrite Hrun', Hrun in Hm. simpl in Hm. specialize (Hm eq_refl).
    congruence. }
  subst yf'.
  destruct (visited_size Hvis) as [Lyf [_ [_ Hkeep]]].
  destruct (@obj_equal_lengths _ _ (nanmean X yf) (weights X w) (targets X q)
              (n_attributes X)) as [x Hx]; auto.
  { apply nanmean_length. }
  exists x, (flatnonzero yf), (advance s 0 (count yf - count y0)).
  assert (S0 : seed_mask X [0] = Ok y0).
  { rewrite seed_mask_ok; [reflexivity|]. unfold row_ids. simpl.
    fold n. destruct (Nat.ltb_spec 0 n); [reflexivity|lia]. }
  assert (SE : seed_mask X [] = Ok yE) by reflexivity.
  assert (Hkne : (k =? Z.of_nat n)%Z = false) by (apply Z.eqb_neq; lia).
  split; [|split].
  - rewrite entrofy_one_trial by reflexivity.
    unfold bind at 1. rewrite _entrofy_asserts_pass by (auto; lia).
    fold n. rewrite Hkne.
    unfold bind at 1, ret at 1. unfold bind at 1, pure at 1. rewrite S0.
    unfold bind at 1. rewrite Hrun.
    unfold bind at 1, pure at 1. rewrite Hx. reflexivity.
  - rewrite entrofy_one_trial by reflexivity.
    unfold bind at 1. rewrite _entrofy_asserts_pass by (auto; lia).
    fold n. rewrite Hkne.
    unfold bind at 1, ret at 1. unfold bind at 1, pure at 1. rewrite SE.
    unfold bind at 1. rewrite loop_S.
    unfold yE at 1. rewrite count_repeat_false.
    destruct (Z.leb_spec k (Z.of_nat 0)) as [G|_]; [lia|].
    unfold bind at 1, tick. unfold bind at 1, pure at 1.
    fold yE. unfold n in Hbody. fold n in Hbody. fold yE in Hbody.
    rewrite Hbody. fold y0.
    replace (mkWorld (entropy s) (drawn s) (S (iters s)))
      with (advance s 0 1)
      by (unfold advance; f_equal; lia).
    rewrite Hrun'.
    unfold bind at 1, pure at 1. rewrite Hx. simpl.
    rewrite !advance_advance. unfold pure. do 2 f_equal. lia.
  - apply flatnonzero_In. split.
    + rewrite Lyf, Ly0. exact Hn.
    + apply Hkeep. unfold y0, yE. rewrite set_at_nth, repeat_length.
      destruct (Nat.ltb_spec 0 n); [reflexivity|lia].
Qed.

End EmptySeed.

Lemma empty_pre_selects_seed_row_0_witness :
  exists x idx s',
    entrofy (T:=float) Sample.X4 2 None None (Some [0]) 15 Sample.s0
    = (Ok (SFloat x, VArr idx), s')
    /\ entrofy (T:=float) Sample.X4 2 None None (Some []) 15 Sample.s0
       = (Ok (SFloat x, VArr idx), advance s' 0 1)
    /\ In 0 idx.
Proof.
  apply (@empty_pre_selects_seed_row_0 float _ _ _ Sample.X4 2%Z None None 15
           Sample.s0).
  - reflexivity.
  - simpl. lia.
  - exact sample_gains_live.
Defined.

(** ** An infinite weight *)

(** X14. The asserts admit an infinite weight, and the score can then be
    [nan]: with the one attribute [1, 0, 1], [k = 2], rows [0] and [1]
    pre-selected, the default target [0.5] and the weight [inf], the
    selected rows hit the target, [H] is [0.], [H.dot(w)] is [0. * inf],
    and [entrofy] returns the score [nan] with the indices [0, 1]. *)
Theorem infinite_weight_gives_nan_score :
  asserts_hold Sample.X3 2 (Some [infinity]) None = true
  /\ nanmean Sample.X3 [true; true; false] = [0.5%float]
  /\ entrofy Sample.X3 2 (Some [infinity]) None (Some [0; 1]) 15 Sample.s0
     = (Ok (SFloat nan, VArr [0; 1]), Sample.s0).
Proof.
  split; [reflexivity|]. split; vm_compute; reflexivity.
Qed.
